(** * FewTags: the yoinker lookup client (yoinker_detector_v2.py)

    A shallow embedding of the rate limiter, the in-memory cache, the
    404.txt ledger, the per-identifier lookup [check_user] and the batch
    loop of [process_user_ids], followed by the properties proved about
    them.

    Conventions of the embedding.
    - A [datetime] is an integer number of microseconds ([Z]); a
      [timedelta] is a difference of two of them.  The clock is a field of
      the world; it moves only when the code sleeps.
    - A Python [str] is held as its UTF-8 encoding, a [string] of bytes;
      a [str] that has none (a lone surrogate) is left out.
    - Files are part of the world: 404.txt, and one snapshot per
      identifier under yoinkers/.  A text file is the characters it
      holds, with the line structure Python reads from them, and carries
      whether it can be read and appended to; two identifiers are taken
      to name two snapshot files, as they do when no identifier holds a
      path separator.  Newlines are written as on POSIX.
    - The remote service is an oracle [server uid k] giving the reply to
      the [k]-th request of the run.
    - Recursion that Python leaves unbounded takes a [fuel] argument; a
      run that needs more than the fuel given ends in [Stuck] with the
      world reached so far. *)

From Stdlib Require Import ZArith List Lia Bool Ascii String Sorted.
From stdpp Require Import base decidable option list gmap strings.

Local Open Scope string_scope.
Local Open Scope list_scope.
Local Open Scope Z_scope.

#[local] Set Warnings "-clear-no-such-hyp".

(** ** Time *)

Definition seconds (n : Z) : Z := n * 1000000.
Definition minutes (n : Z) : Z := seconds (n * 60).
Definition quarter_second : Z := 250000.

(** ** class RateLimiter *)

Module RateLimiter.

Record t := mk {
  max_requests : Z;
  time_frame_seconds : Z;
  requests : list Z
}.

(** [__init__] with its default arguments. *)
Definition init : t :=
  {| max_requests := 15; time_frame_seconds := 60; requests := [] |}.

(** [request_made]: append [now]; past [max_requests + 25] entries the
    oldest one is popped. *)
Definition request_made (now : Z) (rl : t) : t :=
  let appended := requests rl ++ [now] in
  {| max_requests := max_requests rl;
     time_frame_seconds := time_frame_seconds rl;
     requests :=
       if max_requests rl + 25 <? Z.of_nat (length appended)
       then tail appended
       else appended |}.

(** [is_rate_limit_exceeded]: count the entries strictly younger than
    the cutoff. *)
Definition is_rate_limit_exceeded (now : Z) (rl : t) : bool :=
  let cutoff_time := now - seconds (time_frame_seconds rl) in
  let recent_requests :=
    List.filter (fun req => cutoff_time <? req) (requests rl) in
  max_requests rl <=? Z.of_nat (length recent_requests).

(** [request_made] called once at each of the given instants. *)
Definition record_all (instants : list Z) (rl : t) : t :=
  fold_left (fun acc now => request_made now acc) instants rl.

End RateLimiter.

(** ** JSON values, as far as the code looks into them *)

(** A decoded value.  A [dict] is the list of its items, each key once;
    numbers are the integers. *)
#[warnings="-register-all"]
Inductive json :=
| JNull
| JBool (b : bool)
| JNum (n : Z)
| JStr (s : string)
| JArr (items : list json)
| JObj (fields : list (string * json)).

(** Python truthiness of a decoded value. *)
Definition truthy (v : json) : bool :=
  match v with
  | JNull => false
  | JBool b => b
  | JNum n => negb (n =? 0)
  | JStr s => negb (String.eqb s "")
  | JArr items => match items with [] => false | _ => true end
  | JObj fields => match fields with [] => false | _ => true end
  end.

(** [dict.get(key, default)]. *)
Fixpoint dict_get (key : string) (fields : list (string * json))
    (default : json) : json :=
  match fields with
  | [] => default
  | (k, v) :: rest => if String.eqb k key then v else dict_get key rest default
  end.

(** [data.get('isYoinker', False)] as a condition; [None] when [data] is
    not a dict and the attribute lookup raises. *)
Definition is_yoinker (data : json) : option bool :=
  match data with
  | JObj fields => Some (truthy (dict_get "isYoinker" fields (JBool false)))
  | _ => None
  end.

(** [if result:] on an [Optional[Dict]]. *)
Definition result_truthy (result : option json) : bool :=
  match result with
  | Some data => truthy data
  | None => false
  end.

(** ** [str.strip] *)

(** The white space of [str.strip] and [str.isspace], by the bytes of its
    UTF-8 encoding: U+0009 to U+000D, U+001C to U+0020; U+0085 and
    U+00A0; U+1680, U+2000 to U+200A, U+2028, U+2029, U+202F, U+205F and
    U+3000. *)
Definition space1 (x : nat) : bool :=
  (Nat.leb 9 x && Nat.leb x 13) || (Nat.leb 28 x && Nat.leb x 32).

Definition space2 (x y : nat) : bool :=
  Nat.eqb x 194 && (Nat.eqb y 133 || Nat.eqb y 160).

Definition space3 (x y z : nat) : bool :=
  (Nat.eqb x 225 && Nat.eqb y 154 && Nat.eqb z 128)
  || (Nat.eqb x 226 && Nat.eqb y 128
      && ((Nat.leb 128 z && Nat.leb z 138)
          || Nat.eqb z 168 || Nat.eqb z 169 || Nat.eqb z 175))
  || (Nat.eqb x 226 && Nat.eqb y 129 && Nat.eqb z 159)
  || (Nat.eqb x 227 && Nat.eqb y 128 && Nat.eqb z 128).

(** Drop the white space a string begins with.  With [mirror] the string
    is read as a reversed one, the last byte of each character first. *)
Fixpoint lstrip_from (mirror : bool) (s : string) : string :=
  match s with
  | EmptyString => EmptyString
  | String a r1 =>
      let x := nat_of_ascii a in
      if space1 x then lstrip_from mirror r1
      else
        match r1 with
        | EmptyString => s
        | String b r2 =>
            let y := nat_of_ascii b in
            if (if mirror then space2 y x else space2 x y)
            then lstrip_from mirror r2
            else
              match r2 with
              | EmptyString => s
              | String c r3 =>
                  let z := nat_of_ascii c in
                  if (if mirror then space3 z y x else space3 x y z)
                  then lstrip_from mirror r3
                  else s
              end
        end
  end.

Definition lstrip (s : string) : string := lstrip_from false s.

Definition rstrip (s : string) : string :=
  String.rev (lstrip_from true (String.rev s)).

Definition strip (s : string) : string := rstrip (lstrip s).

(** [[line.strip() for line in f if line.strip()]] *)
Definition stripped_lines (ls : list string) : list string :=
  List.filter (fun s => negb (String.eqb s "")) (List.map strip ls).

(** ** Text files *)

Definition LF : ascii := ascii_of_nat 10.
Definition CR : ascii := ascii_of_nat 13.

(** The newline translation of a file opened for reading in text mode:
    a carriage return, with the line feed after it if there is one, reads
    as one line feed.  [after_cr] is the pending carriage return of the
    decoder. *)
Fixpoint translate_newlines (after_cr : bool) (s : string) : string :=
  match s with
  | EmptyString => EmptyString
  | String c rest =>
      if Ascii.eqb c CR then String LF (translate_newlines true rest)
      else if Ascii.eqb c LF && after_cr then translate_newlines false rest
      else String c (translate_newlines false rest)
  end.

Definition universal_newlines (s : string) : string :=
  translate_newlines false s.

(** The lines [for line in f] goes through, each without its line feed,
    which [strip] would remove; characters after the last line feed are a
    line too. *)
Fixpoint split_lines (s : string) : list string :=
  match s with
  | EmptyString => []
  | String c rest =>
      if Ascii.eqb c LF then EmptyString :: split_lines rest
      else
        match split_lines rest with
        | [] => [String c EmptyString]
        | line :: lines => String c line :: lines
        end
  end.

(** What is at a path that holds text. *)
Inductive file_content :=
| Absent                        (* os.path.exists is false *)
| Binary                        (* exists, open or read raises *)
| Text (chars : string).        (* exists and decodes to these characters *)

Record text_file := mkFile {
  stored : file_content;
  appendable : bool             (* open(path, "a") succeeds *)
}.

(** No file yet, in a directory where one can be created. *)
Definition Missing : text_file := mkFile Absent true.

(** A file one can append to, holding the given lines, each ended by a
    line feed. *)
Fixpoint unlines (ls : list string) : string :=
  match ls with
  | [] => EmptyString
  | l :: rest => String.append l (String LF (unlines rest))
  end.

Definition Lines (ls : list string) : text_file := mkFile (Text (unlines ls)) true.

(** [for line in f]; [None] when the file is missing or reading it
    raises. *)
Definition read_lines (f : text_file) : option (list string) :=
  match stored f with
  | Text chars => Some (split_lines (universal_newlines chars))
  | Absent | Binary => None
  end.

(** ** The world the detector runs in *)

(** What [await response.json()] gives. *)
Inductive body :=
| Decoded (data : json)
| Undecodable                   (* raises json.JSONDecodeError *)
| Unavailable                   (* raises an aiohttp.ClientError, as
                                   ContentTypeError is *)
| Overdue                       (* raises asyncio.TimeoutError *)
| Faulty.                       (* raises anything else, as
                                   UnicodeDecodeError *)

Inductive reply :=
| Response (status : Z) (content : body)
| TimeoutError
| ClientError.

(** What is at the path of a snapshot. *)
Inductive snapshot_content :=
| NoFile                        (* os.path.exists is false *)
| BadJson                       (* json.load raises *)
| Json (data : json).           (* json.load gives this value *)

Record snapshot := mkSnapshot {
  holds : snapshot_content;
  can_read : bool;              (* open(path, "r") succeeds *)
  can_write : bool              (* open(path, "w") succeeds *)
}.

(** Files with no restriction on them.  An identifier the map of
    snapshots has no entry for has no file, and one can be created. *)
Definition Corrupt : snapshot := mkSnapshot BadJson true true.
Definition Stored (data : json) : snapshot := mkSnapshot (Json data) true true.

Definition snapshot_exists (node : snapshot) : bool :=
  match holds node with NoFile => false | _ => true end.

(** [json.load] on the opened file; [None] when the file is missing or
    opening or decoding it raises. *)
Definition snapshot_reads (node : snapshot) : option json :=
  if can_read node then
    match holds node with Json data => Some data | _ => None end
  else None.

Inductive event :=
| EvGet (user_id : string) (r : reply)   (* session.get for this identifier *)
| EvSleep (usec : Z)                     (* asyncio.sleep *)
| EvCreateTask (user_id : string)        (* asyncio.create_task *)
| EvAwait (user_id : string).            (* asyncio.wait_for on its task *)

Record world := mkWorld {
  clock : Z;
  rate_limiter : RateLimiter.t;
  cache : gmap string (Z * option json);
  ledger_file : text_file;                 (* 404.txt *)
  snapshot_files : gmap string snapshot;   (* yoinkers/<id>.json *)
  sent : nat;                              (* requests issued so far *)
  trace : list event                       (* oldest first *)
}.

Definition set_clock (c : Z) (w : world) : world :=
  mkWorld c (rate_limiter w) (cache w) (ledger_file w) (snapshot_files w)
          (sent w) (trace w).
Definition set_rate_limiter (rl : RateLimiter.t) (w : world) : world :=
  mkWorld (clock w) rl (cache w) (ledger_file w) (snapshot_files w)
          (sent w) (trace w).
Definition set_cache (c : gmap string (Z * option json)) (w : world) : world :=
  mkWorld (clock w) (rate_limiter w) c (ledger_file w) (snapshot_files w)
          (sent w) (trace w).
Definition set_ledger_file (f : text_file) (w : world) : world :=
  mkWorld (clock w) (rate_limiter w) (cache w) f (snapshot_files w)
          (sent w) (trace w).
Definition set_snapshot_files (s : gmap string snapshot) (w : world) : world :=
  mkWorld (clock w) (rate_limiter w) (cache w) (ledger_file w) s
          (sent w) (trace w).
Definition log (e : event) (w : world) : world :=
  mkWorld (clock w) (rate_limiter w) (cache w) (ledger_file w)
          (snapshot_files w) (sent w) (trace w ++ [e]).

(** [await asyncio.sleep(d)] *)
Definition sleep (usec : Z) (w : world) : world :=
  log (EvSleep usec) (set_clock (clock w + usec) w).

(** [session.get(url)]: the reply comes from the oracle. *)
Definition session_get (server : string -> nat -> reply) (user_id : string)
    (w : world) : reply * world :=
  let r := server user_id (sent w) in
  (r, mkWorld (clock w) (rate_limiter w) (cache w) (ledger_file w)
              (snapshot_files w) (S (sent w)) (trace w ++ [EvGet user_id r])).

(** A freshly constructed detector in front of the given files. *)
Definition fresh (now : Z) (ledger : text_file)
    (snaps : gmap string snapshot) : world :=
  mkWorld now RateLimiter.init ∅ ledger snaps 0 [].

(** Result of a computation that may need more fuel than it was given. *)
Inductive run (A : Type) :=
| Done (a : A) (w : world)
| Stuck (w : world).
Arguments Done {A} a w.
Arguments Stuck {A} w.

Definition final {A} (r : run A) : world :=
  match r with Done _ w => w | Stuck w => w end.

(** ** class YoinkerDetector *)

Definition cache_ttl : Z := minutes 30.
Definition cache_capacity : nat := 512.

(** [_check_cache] *)
Definition _check_cache (user_id : string) (w : world) : option json * world :=
  let shed (w : world) : option json * world :=
    (None, if Nat.ltb cache_capacity (size (cache w))
           then set_cache ∅ w else w) in
  match cache w !! user_id with
  | Some (cached_time, result) =>
      if clock w - cached_time <? cache_ttl
      then (result, w)
      else shed (set_cache (delete user_id (cache w)) w)
  | None => shed w
  end.

(** [_add_to_cache] *)
Definition _add_to_cache (user_id : string) (result : option json)
    (w : world) : world :=
  set_cache (<[user_id := (clock w, result)]> (cache w)) w.

(** [_save_to_404_file]: [f.write(f"{user_id}\n")] on the file opened for
    appending, which creates it if need be; the characters go right after
    those the file holds, whether these end a line or not, and whether
    they can be decoded or not.  When the file cannot be opened the error
    is printed and swallowed. *)
Definition append_line (line : string) (f : text_file) : text_file :=
  if appendable f then
    match stored f with
    | Absent => mkFile (Text (String.append line (String LF EmptyString))) true
    | Binary => f
    | Text chars =>
        mkFile (Text (String.append chars
                        (String.append line (String LF EmptyString)))) true
    end
  else f.

Definition _save_to_404_file (user_id : string) (w : world) : world :=
  set_ledger_file (append_line user_id (ledger_file w)) w.

(** [_load_404_ids] *)
Definition _load_404_ids (w : world) : gset string :=
  match read_lines (ledger_file w) with
  | None => ∅
  | Some ls => list_to_set (stripped_lines ls)
  end.

(** [_save_json_response]: nothing for an empty result without
    save_empty; otherwise the file of the identifier is opened for
    writing and holds the record, or the placeholder, afterwards. *)
Definition not_found_record (user_id : string) : json :=
  JObj [("userId", JStr user_id); ("userName", JStr "");
        ("isYoinker", JBool false); ("reason", JStr "");
        ("year", JStr ""); ("status", JStr "not_found")].

Definition _save_json_response (user_id : string) (response_data : option json)
    (save_empty : bool) (w : world) : world :=
  if negb save_empty && negb (result_truthy response_data) then w
  else
    let written :=
      match response_data with
      | Some data => if truthy data then data else not_found_record user_id
      | None => not_found_record user_id
      end in
    let node := default (mkSnapshot NoFile true true)
                        (snapshot_files w !! user_id) in
    if can_write node then
      set_snapshot_files
        (<[user_id := mkSnapshot (Json written)
                        (if snapshot_exists node then can_read node else true)
                        true]> (snapshot_files w)) w
    else w.                     (* open raises, the error is printed *)

(** [RateLimiter.request_made] on the detector's limiter, at the current
    clock. *)
Definition request_made (w : world) : world :=
  set_rate_limiter (RateLimiter.request_made (clock w) (rate_limiter w)) w.

Definition is_rate_limit_exceeded (w : world) : bool :=
  RateLimiter.is_rate_limit_exceeded (clock w) (rate_limiter w).

(** [RateLimiter.wait_if_needed]: poll every quarter of a second. *)
Fixpoint wait_if_needed (fuel : nat) (w : world) : run unit :=
  if is_rate_limit_exceeded w then
    match fuel with
    | O => Stuck w
    | S fuel' => wait_if_needed fuel' (sleep quarter_second w)
    end
  else Done tt w.

(** How a call of [check_user] ends. *)
Inductive outcome :=
| Returned (result : option json)
| Raised.                       (* an exception no handler of check_user takes *)

(** The first block of [check_user]: the snapshot file of the identifier.
    [None] is the fall-through to the cache: no file, or the handler of
    [except Exception] after a failed read. *)
Definition existing_json (user_id : string) (w : world)
    : option (option json * world) :=
  match snapshot_files w !! user_id with
  | None => None
  | Some node =>
      if snapshot_exists node then
        match snapshot_reads node with
        | None => None
        | Some data =>
            match is_yoinker data with
            | None => None
            | Some true => Some (Some data, w)
            | Some false =>
                Some (None,
                      if decide (user_id ∈ _load_404_ids w) then w
                      else _save_to_404_file user_id w)
            end
        end
      else None
  end.

(** What [check_user] does once the request is over: an answer, or the
    call of itself that it returns. *)
Inductive next :=
| Finish (o : outcome) (w : world)
| Again (retry_count : Z) (w : world).

(** The handlers of [except asyncio.TimeoutError] and of
    [except aiohttp.ClientError], which differ in their message only. *)
Definition on_failure (retry_count : Z) (w : world) : next :=
  if retry_count <? 3 then
    Again (retry_count + 1) (sleep (seconds 1) w)
  else Finish (Returned None) w.

(** The [try] block of [check_user] from the reply on, with its
    [except] handlers; [w3] is the world in which the reply arrived.  The
    body is read for a 200 only. *)
Definition on_reply (user_id : string) (retry_count : Z) (r : reply)
    (w3 : world) : next :=
  match r with
  | Response status content =>
      let w4 := request_made w3 in
      if status =? 200 then
        match content with
        | Decoded data =>
            match is_yoinker data with
            | Some true =>
                Finish (Returned (Some data))
                       (_add_to_cache user_id (Some data) w4)
            | Some false =>
                Finish (Returned None) (_add_to_cache user_id None w4)
            | None => Finish Raised w4
            end
        | Undecodable => Finish (Returned None) w4
        | Unavailable | Overdue => on_failure retry_count w4
        | Faulty => Finish Raised w4
        end
      else if status =? 404 then
        Finish (Returned None)
               (_save_to_404_file user_id (_add_to_cache user_id None w4))
      else if status =? 429 then
        Again retry_count (sleep (seconds 60) w4)
      else
        Again retry_count (sleep (seconds 1) w4)
  | TimeoutError | ClientError => on_failure retry_count w3
  end.

(** [check_user].  Every call costs one unit of fuel, and the rate gate
    draws on what is left. *)
Fixpoint check_user (fuel : nat) (server : string -> nat -> reply)
    (user_id : string) (retry_count : Z) (w : world) : run outcome :=
  match fuel with
  | O => Stuck w
  | S fuel' =>
    match existing_json user_id w with
    | Some (result, w1) => Done (Returned result) w1
    | None =>
      match _check_cache user_id w with
      | (Some cached_result, w1) => Done (Returned (Some cached_result)) w1
      | (None, w1) =>
        match wait_if_needed fuel' w1 with
        | Stuck w2 => Stuck w2
        | Done _ w2 =>
          match session_get server user_id w2 with
          | (r, w3) =>
            match on_reply user_id retry_count r w3 with
            | Finish o w5 => Done o w5
            | Again retry_count' w5 =>
                check_user fuel' server user_id retry_count' w5
            end
          end
        end
      end
    end
  end.

(** ** [process_user_ids] *)

(** [range(start, stop, step)]; [None] is the ValueError of a zero step. *)
Definition py_range (start stop step : Z) : option (list Z) :=
  if step =? 0 then None
  else
    let count :=
      if 0 <? step then (stop - start + step - 1) / step
      else (start - stop - step - 1) / (- step) in
    Some (List.map (fun k => start + Z.of_nat k * step)
                   (seq 0 (Z.to_nat count))).

(** [xs[lo:hi]] for bounds that are not negative. *)
Definition slice {A} (lo hi : Z) (xs : list A) : list A :=
  take (Z.to_nat hi - Z.to_nat lo)%nat (drop (Z.to_nat lo) xs).

(** The batches the main loop visits, in order. *)
Definition batches (user_ids : list string) (batch_size : Z)
    : option (list (list string)) :=
  match py_range 0 (Z.of_nat (length user_ids)) batch_size with
  | None => None
  | Some starts =>
      Some (List.map (fun i => slice i (i + batch_size) user_ids) starts)
  end.

Record counters := mkCounters { completed : nat; found_count : nat }.

(** The inner loop over the tasks of one batch.  In the program the
    tasks of a batch share the event loop from their creation on, and
    [wait_for] cancels a task that is not done after 5 seconds, which the
    handler of [asyncio.TimeoutError] counts.  Here each task runs by
    itself, to its end, at the point where it is awaited: the time limit,
    the cancellation and the interleaving of the tasks of a batch are not
    represented.  The statements about this loop concern the order of
    creations and awaits and the identifiers that tasks and requests
    exist for, which do not depend on them; nothing is stated about the
    counters. *)
Fixpoint await_tasks (fuel : nat) (server : string -> nat -> reply)
    (save_empty : bool) (tasks : list string) (acc : counters) (w : world)
    : run counters :=
  match tasks with
  | [] => Done acc w
  | user_id :: rest =>
      match check_user fuel server user_id 0 (log (EvAwait user_id) w) with
      | Stuck w1 => Stuck w1
      | Done (Returned result) w1 =>
          let w2 := _save_json_response user_id result save_empty w1 in
          await_tasks fuel server save_empty rest
            (mkCounters (S (completed acc))
                        (if result_truthy result then S (found_count acc)
                         else found_count acc))
            w2
      | Done Raised w1 =>
          await_tasks fuel server save_empty rest
            (mkCounters (S (completed acc)) (found_count acc)) w1
      end
  end.

Definition create_tasks (batch : list string) (w : world) : world :=
  fold_left (fun acc user_id => log (EvCreateTask user_id) acc) batch w.

(** The outer loop over the batches. *)
Fixpoint process_batches (fuel : nat) (server : string -> nat -> reply)
    (save_empty : bool) (todo : list (list string)) (acc : counters)
    (w : world) : run counters :=
  match todo with
  | [] => Done acc w
  | batch :: rest =>
      match await_tasks fuel server save_empty batch acc
                        (create_tasks batch w) with
      | Stuck w1 => Stuck w1
      | Done acc1 w1 => process_batches fuel server save_empty rest acc1 w1
      end
  end.

(** How [process_user_ids] ends. *)
Inductive exit :=
| NothingToDo                    (* one of the early returns *)
| Finished (totals : counters)
| ValueError.                    (* range() arg 3 must not be zero *)

(** The list read from the input file; [None] when the file is missing or
    unreadable. *)
Definition read_user_ids (input_file : text_file) : option (list string) :=
  match read_lines input_file with
  | Some ls => Some (stripped_lines ls)
  | None => None
  end.

(** The filter on the identifiers of 404.txt. *)
Definition skip_known (not_found_ids : gset string) (user_ids : list string)
    : list string :=
  List.filter (fun uid => bool_decide (uid ∉ not_found_ids)) user_ids.

Definition process_user_ids (fuel : nat) (server : string -> nat -> reply)
    (max_concurrent : Z) (input_file : text_file) (save_empty : bool)
    (w : world) : run exit :=
  match read_user_ids input_file with
  | None => Done NothingToDo w
  | Some [] => Done NothingToDo w
  | Some user_ids =>
      let not_found_ids := _load_404_ids w in
      match skip_known not_found_ids user_ids with
      | [] => Done NothingToDo w
      | user_ids =>
          let batch_size := max_concurrent * 2 in
          match batches user_ids batch_size with
          | None => Done ValueError w
          | Some todo =>
              match process_batches fuel server save_empty todo
                                    (mkCounters 0 0) w with
              | Stuck w1 => Stuck w1
              | Done totals w1 => Done (Finished totals) w1
              end
          end
      end
  end.

(** ** Vocabulary of the statements *)

(** The world after [k] polls of the rate gate. *)
Fixpoint settle (k : nat) (w : world) : world :=
  match k with
  | O => w
  | S k' => settle k' (sleep quarter_second w)
  end.

(** The limiter of a world was built with a positive quota, as
    [RateLimiter()] does. *)
Definition quota_positive (w : world) : Prop :=
  0 < RateLimiter.max_requests (rate_limiter w).

Definition newest (instants : list Z) : Z := fold_right Z.max 0 instants.

Definition is_throttled (r : reply) : bool :=
  match r with
  | Response status _ => status =? 429
  | _ => false
  end.

(** The reply ends in one of the two [except] handlers: the request
    itself failed, or the body of a 200 could not be fetched. *)
Definition is_transport_failure (r : reply) : bool :=
  match r with
  | TimeoutError | ClientError => true
  | Response status (Unavailable | Overdue) => status =? 200
  | Response _ _ => false
  end.

(** The world in which a handler runs: [request_made] has been called
    when a response arrived. *)
Definition received (r : reply) (w3 : world) : world :=
  match r with
  | Response _ _ => request_made w3
  | TimeoutError | ClientError => w3
  end.

(** Requests of a trace, all of them, or those not answered 429, or those
    that failed in transport. *)
Definition is_get (e : event) : bool :=
  match e with EvGet _ _ => true | _ => false end.
Definition is_get_for (user_id : string) (e : event) : bool :=
  match e with EvGet u _ => String.eqb u user_id | _ => false end.
Definition is_attempt (e : event) : bool :=
  match e with EvGet _ r => negb (is_throttled r) | _ => false end.
Definition is_failure (e : event) : bool :=
  match e with EvGet _ r => is_transport_failure r | _ => false end.
Definition is_orchestration (e : event) : bool :=
  match e with EvCreateTask _ | EvAwait _ => true | _ => false end.

Definition count (p : event -> bool) (evs : list event) : nat :=
  length (List.filter p evs).

(** The event belongs to the lookup of one of the given identifiers. *)
Definition about (ids : list string) (e : event) : Prop :=
  match e with
  | EvGet u _ | EvCreateTask u | EvAwait u => u ∈ ids
  | EvSleep _ => True
  end.

(** An event a single lookup of [user_id] can emit. *)
Definition of_lookup (user_id : string) (e : event) : Prop :=
  match e with
  | EvGet u _ => u = user_id
  | EvSleep _ => True
  | EvCreateTask _ | EvAwait _ => False
  end.

(** What the main loop does with a list of batches, when nothing stops
    it. *)
Definition schedule (todo : list (list string)) : list event :=
  flat_map (fun batch => List.map EvCreateTask batch ++ List.map EvAwait batch)
           todo.

(** The status is one of those [check_user] names. *)
Definition named_status (r : reply) : Prop :=
  match r with
  | Response status _ => status = 200 \/ status = 404 \/ status = 429
  | _ => True
  end.

(** The events a computation added to the trace. *)
Definition new_events (w w' : world) : list event :=
  drop (length (trace w)) (trace w').

(** ** Sample data for the concrete cases *)

Definition sample_id (n : nat) : string :=
  "usr_" ++ String (ascii_of_nat (48 + n / 100))
           (String (ascii_of_nat (48 + (n / 10) mod 10))
           (String (ascii_of_nat (48 + n mod 10)) "")).

Definition sample_record : json :=
  JObj [("isYoinker", JBool true); ("userName", JStr "Foo");
        ("year", JStr "2024"); ("reason", JStr "spam")].

(** A detector that has stored a result for each of the first [n] sample
    identifiers. *)
Definition stocked (n : nat) (result : option json) : world :=
  fold_left (fun w k => _add_to_cache (sample_id k) result w) (seq 0 n)
            (fresh 0 Missing ∅).


(** [s] begins with a character of white space; with [mirror], read as
    a reversed string. *)
Definition begins_with_space (mirror : bool) (s : string) : bool :=
  match s with
  | EmptyString => false
  | String a r1 =>
      let x := nat_of_ascii a in
      space1 x
      || match r1 with
         | EmptyString => false
         | String b r2 =>
             let y := nat_of_ascii b in
             (if mirror then space2 y x else space2 x y)
             || match r2 with
                | EmptyString => false
                | String c _ =>
                    let z := nat_of_ascii c in
                    if mirror then space3 z y x else space3 x y z
                end
         end
  end.

(** The string holds a line feed or a carriage return. *)
Fixpoint has_newline (s : string) : bool :=
  match s with
  | EmptyString => false
  | String c rest => Ascii.eqb c LF || Ascii.eqb c CR || has_newline rest
  end.

(** The text is empty or its last character is a line feed. *)
Fixpoint ends_line (s : string) : bool :=
  match s with
  | EmptyString => true
  | String c rest =>
      match rest with
      | EmptyString => Ascii.eqb c LF
      | String _ _ => ends_line rest
      end
  end.

(** A 404.txt that can be appended to and is missing or holds complete
    lines, as [_save_to_404_file] leaves it. *)
Definition keeps_lines (f : text_file) : bool :=
  appendable f
  && match stored f with
     | Absent => true
     | Binary => false
     | Text chars => ends_line chars
     end.

(** An identifier as [process_user_ids] reads them: one line, not empty,
    with no white space around it. *)
Definition is_identifier (uid : string) : Prop :=
  has_newline uid = false ∧ strip uid = uid ∧ uid <> "".


(** ** The report file, [_append_csv_result] *)







(** * Properties *)

(** ** The rate limiter *)

Lemma record_all_snoc ts t rl :
  RateLimiter.record_all (ts ++ [t]) rl
  = RateLimiter.request_made t (RateLimiter.record_all ts rl).
Proof. unfold RateLimiter.record_all. by rewrite fold_left_app. Qed.

Lemma record_all_requests ts :
  let rl := RateLimiter.record_all ts RateLimiter.init in
  RateLimiter.max_requests rl = 15
  ∧ RateLimiter.time_frame_seconds rl = 60
  ∧ RateLimiter.requests rl = drop (length ts - 40)%nat ts.
Proof.
  induction ts as [|t ts IH] using rev_ind; [done|].
  rewrite record_all_snoc. cbn zeta in *.
  destruct IH as (HK & HW & Hreq).
  unfold RateLimiter.request_made; cbn [RateLimiter.max_requests
    RateLimiter.time_frame_seconds RateLimiter.requests].
  rewrite HK, HW, Hreq. split; [done|]. split; [done|].
  rewrite !length_app, length_drop. cbn [length].
  destruct (Z.ltb_spec (15 + 25) (Z.of_nat (length ts - (length ts - 40) + 1))).
  - assert (40 <= length ts)%nat by lia.
    replace (length ts + 1 - 40)%nat with (length ts - 40 + 1)%nat by lia.
    rewrite <- drop_drop.
    rewrite (drop_app_le ts) by lia.
    destruct (drop (length ts - 40) ts) eqn:E; [|done].
    apply (f_equal length) in E. rewrite length_drop in E. simpl in E. lia.
  - rewrite drop_app_le by lia. f_equal. f_equal. lia.
Qed.

Section SortedCount.
Variable f : Z -> bool.
Hypothesis f_mono : forall a b, a <= b -> f a = true -> f b = true.

Lemma filter_all_sorted a ts :
  Sorted Z.le (a :: ts) -> f a = true -> List.filter f ts = ts.
Proof.
  intros Hs Ha. apply Sorted_StronglySorted in Hs; [|intros x y z; lia].
  inversion Hs as [|? ? _ Hall]; subst.
  induction ts as [|b ts IH]; [done|].
  inversion Hall; subst. simpl. rewrite (f_mono a b) by done.
  f_equal. apply IH; [|done].
  inversion Hs as [|? ? Hs' _]; subst. inversion Hs'; subst.
  constructor; [done|]. done.
Qed.

Lemma length_filter_le ts : (length (List.filter f ts) <= length ts)%nat.
Proof. induction ts as [|a ts IH]; simpl; [lia|]. destruct (f a); simpl; lia. Qed.

Lemma count_recent_drop ts k :
  Sorted Z.le ts ->
  length (List.filter f (drop k ts))
  = Nat.min (length (List.filter f ts)) (length ts - k).
Proof.
  revert k. induction ts as [|a ts IH]; intros k Hs.
  - by rewrite drop_nil.
  - destruct k as [|k].
    + rewrite drop_0. pose proof (length_filter_le (a :: ts)). lia.
    + cbn [drop skipn length List.filter]. rewrite IH by (by inversion Hs).
      destruct (f a) eqn:Ha; [|f_equal; lia].
      rewrite (filter_all_sorted a ts) by done. cbn [length]. lia.
Qed.
End SortedCount.


(** ** The rate gate *)

Lemma newest_upper instants x : In x instants -> x <= newest instants.
Proof.
  induction instants as [|y ys IH]; simpl; [done|].
  intros [->|Hin]; [lia|]. specialize (IH Hin). lia.
Qed.

Lemma exceeded_has_recent now rl :
  0 < RateLimiter.max_requests rl ->
  RateLimiter.is_rate_limit_exceeded now rl = true ->
  now - seconds (RateLimiter.time_frame_seconds rl)
  < newest (RateLimiter.requests rl).
Proof.
  unfold RateLimiter.is_rate_limit_exceeded. intros HK Hex.
  apply Z.leb_le in Hex.
  destruct (List.filter _ (RateLimiter.requests rl)) as [|x xs] eqn:E.
  - simpl in Hex. lia.
  - assert (Hin : In x (List.filter
        (fun req => now - seconds (RateLimiter.time_frame_seconds rl) <? req)
        (RateLimiter.requests rl))) by (rewrite E; by left).
    apply filter_In in Hin as [Hin Hlt]. apply Z.ltb_lt in Hlt.
    pose proof (newest_upper _ _ Hin). lia.
Qed.

Lemma settle_fields k w :
  rate_limiter (settle k w) = rate_limiter w
  ∧ cache (settle k w) = cache w
  ∧ ledger_file (settle k w) = ledger_file w
  ∧ snapshot_files (settle k w) = snapshot_files w
  ∧ sent (settle k w) = sent w
  ∧ clock (settle k w) = clock w + Z.of_nat k * quarter_second
  ∧ trace (settle k w) = trace w ++ repeat (EvSleep quarter_second) k.
Proof.
  revert w. induction k as [|k IH]; intros w.
  - simpl. rewrite app_nil_r. repeat split; lia.
  - cbn [settle]. destruct (IH (sleep quarter_second w))
      as (-> & -> & -> & -> & -> & -> & ->).
    cbn. rewrite <- app_assoc. repeat split. lia.
Qed.

Lemma wait_if_needed_final fuel w :
  exists k, final (wait_if_needed fuel w) = settle k w.
Proof.
  revert w. induction fuel as [|fuel IH]; intros w; simpl.
  - exists O. by destruct (is_rate_limit_exceeded w).
  - destruct (is_rate_limit_exceeded w); [|by exists O].
    destruct (IH (sleep quarter_second w)) as [k Hk]. by exists (S k).
Qed.

Lemma wait_if_needed_done fuel w w' :
  wait_if_needed fuel w = Done tt w' ->
  (exists k, w' = settle k w) ∧ is_rate_limit_exceeded w' = false.
Proof.
  revert w. induction fuel as [|fuel IH]; intros w; simpl.
  - destruct (is_rate_limit_exceeded w) eqn:E; [done|].
    intros [= <-]. split; [by exists O|done].
  - destruct (is_rate_limit_exceeded w) eqn:E.
    + intros H. destruct (IH _ H) as [[k ->] Hex]. split; [by exists (S k)|done].
    + intros [= <-]. split; [by exists O|done].
Qed.

Lemma wait_if_needed_settles w :
  quota_positive w ->
  exists k, is_rate_limit_exceeded (settle k w) = false
    ∧ forall fuel, (k <= fuel)%nat -> wait_if_needed fuel w = Done tt (settle k w).
Proof.
  intros HK.
  remember (Z.to_nat (newest (RateLimiter.requests (rate_limiter w))
                      + seconds (RateLimiter.time_frame_seconds (rate_limiter w))
                      - clock w)) as bound eqn:Hb.
  assert (Hle : newest (RateLimiter.requests (rate_limiter w))
                + seconds (RateLimiter.time_frame_seconds (rate_limiter w))
                - clock w <= Z.of_nat bound) by lia.
  clear Hb. revert w HK Hle. induction bound as [|bound IH]; intros w HK Hle.
  - exists O. assert (Hno : is_rate_limit_exceeded w = false).
    { destruct (is_rate_limit_exceeded w) eqn:E; [|done].
      apply exceeded_has_recent in E; [lia|done]. }
    split; [done|]. intros fuel _. destruct fuel; simpl; by rewrite Hno.
  - destruct (is_rate_limit_exceeded w) eqn:E.
    + destruct (IH (sleep quarter_second w)) as (k & Hk & Hrun).
      { done. }
      { cbn. unfold quarter_second. lia. }
      exists (S k). split; [done|]. intros [|fuel] Hf; [lia|].
      simpl. rewrite E. apply Hrun. lia.
    + exists O. split; [done|]. intros fuel _. destruct fuel; simpl; by rewrite E.
Qed.


Lemma Forall_repeat {A} (P : A -> Prop) x k : P x -> Forall P (repeat x k).
Proof. intros Hx. induction k; simpl; by constructor. Qed.

(** ** Fields the building blocks leave alone *)

Lemma existing_json_fields uid w r w1 :
  existing_json uid w = Some (r, w1) ->
  clock w1 = clock w ∧ rate_limiter w1 = rate_limiter w ∧ cache w1 = cache w
  ∧ snapshot_files w1 = snapshot_files w ∧ sent w1 = sent w
  ∧ trace w1 = trace w.
Proof.
  unfold existing_json. repeat case_match; try done; by intros [= <- <-].
Qed.

Lemma _check_cache_fields uid w :
  let w1 := (_check_cache uid w).2 in
  clock w1 = clock w ∧ rate_limiter w1 = rate_limiter w
  ∧ ledger_file w1 = ledger_file w ∧ snapshot_files w1 = snapshot_files w
  ∧ sent w1 = sent w ∧ trace w1 = trace w.
Proof.
  unfold _check_cache. destruct (cache w !! uid) as [[t r]|].
  - destruct (clock w - t <? cache_ttl); [done|]. cbn.
    by case_match.
  - cbn. by case_match.
Qed.

Lemma on_reply_finish uid rc r w3 o w5 :
  on_reply uid rc r w3 = Finish o w5 ->
  trace w5 = trace w3 ∧ sent w5 = sent w3
  ∧ snapshot_files w5 = snapshot_files w3
  ∧ RateLimiter.max_requests (rate_limiter w5)
    = RateLimiter.max_requests (rate_limiter w3).
Proof.
  unfold on_reply, on_failure.
  repeat case_match; try done; by intros [= <- <-].
Qed.

Lemma on_reply_again uid rc r w3 rc' w5 :
  on_reply uid rc r w3 = Again rc' w5 ->
  (exists d, trace w5 = trace w3 ++ [EvSleep d]) ∧ sent w5 = sent w3
  ∧ snapshot_files w5 = snapshot_files w3
  ∧ RateLimiter.max_requests (rate_limiter w5)
    = RateLimiter.max_requests (rate_limiter w3).
Proof.
  unfold on_reply, on_failure.
  repeat case_match; try done; intros [= <- <-]; cbn; eauto.
Qed.

(** Destructs one call of [check_user] in the goal into its ways out. *)
Ltac check_user_cases uid w :=
  cbn [check_user];
  let r := fresh "r" in let w1 := fresh "w1" in
  let Hsnap := fresh "Hsnap" in let Hcache := fresh "Hcache" in
  let Hgate := fresh "Hgate" in let Hreply := fresh "Hreply" in
  destruct (existing_json uid w) as [[r w1]|] eqn:Hsnap;
  [|destruct (_check_cache uid w) as [[r|] w1] eqn:Hcache;
    [|match goal with
      | |- context [wait_if_needed ?f w1] =>
          let w2 := fresh "w2" in
          destruct (wait_if_needed f w1) as [[] w2|w2] eqn:Hgate;
          [cbn [session_get];
           match goal with
           | |- context [on_reply ?u ?rc ?rep ?w3] =>
               let o := fresh "o" in let rc' := fresh "rc'" in
               let w5 := fresh "w5" in
               destruct (on_reply u rc rep w3) as [o w5|rc' w5] eqn:Hreply
           end|]
      end]].

Lemma check_user_trace fuel server uid rc w :
  exists evs, trace (final (check_user fuel server uid rc w)) = trace w ++ evs
    ∧ Forall (of_lookup uid) evs.
Proof.
  revert rc w. induction fuel as [|fuel IH]; intros rc w.
  { exists []. by rewrite app_nil_r. }
  check_user_cases uid w; cbn [final].
  - apply existing_json_fields in Hsnap as (_ & _ & _ & _ & _ & ->).
    exists []. by rewrite app_nil_r.
  - pose proof (_check_cache_fields uid w) as (_ & _ & _ & _ & _ & Ht).
    rewrite Hcache in Ht. cbn in Ht. rewrite Ht. exists []. by rewrite app_nil_r.
  - pose proof (_check_cache_fields uid w) as (_ & _ & _ & _ & _ & Ht).
    rewrite Hcache in Ht. cbn in Ht.
    apply wait_if_needed_done in Hgate as [[k ->] _].
    apply on_reply_finish in Hreply as (-> & _). cbn.
    destruct (settle_fields k w1) as (_ & _ & _ & _ & _ & _ & ->). rewrite Ht.
    eexists. rewrite <- app_assoc. split; [done|].
    apply Forall_app. split; [by apply Forall_repeat|].
    by repeat constructor.
  - pose proof (_check_cache_fields uid w) as (_ & _ & _ & _ & _ & Ht).
    rewrite Hcache in Ht. cbn in Ht.
    apply wait_if_needed_done in Hgate as [[k ->] _].
    apply on_reply_again in Hreply as ([d Hd] & _).
    destruct (IH rc' w5) as (evs & -> & Hevs). rewrite Hd. cbn.
    destruct (settle_fields k w1) as (_ & _ & _ & _ & _ & _ & ->). rewrite Ht.
    eexists. rewrite <- !app_assoc. split; [done|].
    apply Forall_app. split; [by apply Forall_repeat|].
    by repeat constructor.
  - pose proof (_check_cache_fields uid w) as (_ & _ & _ & _ & _ & Ht).
    rewrite Hcache in Ht. cbn in Ht.
    pose proof (wait_if_needed_final fuel w1) as [k Hk]. rewrite Hgate in Hk.
    cbn in Hk. subst w2.
    destruct (settle_fields k w1) as (_ & _ & _ & _ & _ & _ & ->). rewrite Ht.
    eexists. split; [done|]. by apply Forall_repeat.
Qed.


(** ** The batches *)

Lemma py_range_forward n step :
  0 < step ->
  py_range 0 (Z.of_nat n) step
  = Some (List.map (fun k => Z.of_nat k * step)
                   (seq 0 (Z.to_nat ((Z.of_nat n + step - 1) / step)))).
Proof.
  intros Hs. unfold py_range.
  destruct (Z.eqb_spec step 0); [lia|].
  destruct (Z.ltb_spec 0 step); [|lia].
  rewrite Z.sub_0_r. f_equal.
Qed.

Lemma slice_chunk {A} (k : nat) (step : Z) (xs : list A) :
  0 < step ->
  slice (Z.of_nat k * step) (Z.of_nat k * step + step) xs
  = take (Z.to_nat step) (drop (k * Z.to_nat step) xs).
Proof.
  intros Hs. unfold slice. f_equal; [|f_equal]; nia.
Qed.

Lemma batches_chunks (ids : list string) step :
  0 < step ->
  batches ids step
  = Some (List.map (fun k => take (Z.to_nat step) (drop (k * Z.to_nat step) ids))
                   (seq 0 (Z.to_nat ((Z.of_nat (length ids) + step - 1) / step)))).
Proof.
  intros Hs. unfold batches. rewrite py_range_forward by done.
  f_equal. rewrite map_map. apply map_ext. intros k. by apply slice_chunk.
Qed.

Lemma chunks_concat {A} (b : nat) (xs : list A) (n : nat) :
  (length xs <= n * b)%nat ->
  concat (List.map (fun k => take b (drop (k * b) xs)) (seq 0 n)) = xs.
Proof.
  revert xs. induction n as [|n IH]; intros xs Hlen.
  - destruct xs; [done|simpl in Hlen; lia].
  - cbn [seq List.map concat]. rewrite <- seq_shift, map_map.
    rewrite drop_0.
    rewrite (map_ext _ (fun k => take b (drop (k * b) (drop b xs)))).
    2:{ intros k. rewrite drop_drop. do 2 f_equal; lia. }
    rewrite IH; [apply take_drop|]. rewrite length_drop. lia.
Qed.

Lemma chunk_count_spec (n : nat) step :
  0 < step ->
  let m := Z.to_nat ((Z.of_nat n + step - 1) / step) in
  (n <= m * Z.to_nat step)%nat ∧ ((m - 1) * Z.to_nat step < n \/ m = O)%nat.
Proof.
  intros Hs m.
  pose proof (Z.div_mod (Z.of_nat n + step - 1) step ltac:(lia)) as Hdm.
  pose proof (Z.mod_pos_bound (Z.of_nat n + step - 1) step Hs) as Hmod.
  assert (Hq : 0 <= (Z.of_nat n + step - 1) / step)
    by (apply Z.div_pos; lia).
  subst m. split.
  - nia.
  - destruct (Z.to_nat ((Z.of_nat n + step - 1) / step)) eqn:E; [by right|].
    left. nia.
Qed.

Lemma batches_partition (ids : list string) step :
  0 < step ->
  exists todo,
    batches ids step = Some todo
    ∧ concat todo = ids
    ∧ forall k batch, todo !! k = Some batch ->
        (0 < length batch <= Z.to_nat step)%nat
        ∧ ((S k < length todo)%nat -> length batch = Z.to_nat step).
Proof.
  intros Hs. eexists. split; [by apply batches_chunks|].
  destruct (chunk_count_spec (length ids) step Hs) as [Hup Hlow].
  set (m := Z.to_nat ((Z.of_nat (length ids) + step - 1) / step)) in *.
  split; [by apply chunks_concat|].
  intros k batch Hk.
  apply list_lookup_fmap_Some in Hk as (j & -> & Hj).
  apply lookup_seq in Hj as [-> Hkm]. cbn.
  rewrite length_map, length_seq, length_take, length_drop.
  split; [|nia]. nia.
Qed.

Lemma batches_subset (ids : list string) step todo :
  batches ids step = Some todo -> forall x, x ∈ concat todo -> x ∈ ids.
Proof.
  unfold batches. destruct (py_range _ _ _) as [starts|]; [|done].
  intros [= <-] x Hx.
  apply list_elem_of_In, in_concat in Hx as (batch & Hb & Hx).
  apply in_map_iff in Hb as (i & <- & _). unfold slice in Hx.
  apply list_elem_of_In.
  rewrite <- (take_drop (Z.to_nat i) ids). apply in_or_app. right.
  set (rest := drop (Z.to_nat i) ids) in *.
  rewrite <- (take_drop (Z.to_nat (i + step) - Z.to_nat i) rest).
  apply in_or_app. by left.
Qed.


(** ** The trace of the main loop *)

Lemma of_lookup_about uid ids e : uid ∈ ids -> of_lookup uid e -> about ids e.
Proof. intros Hin. destruct e; simpl; by try intros ->. Qed.

Lemma about_mono ids ids' e :
  (forall x, x ∈ ids -> x ∈ ids') -> about ids e -> about ids' e.
Proof. intros Hsub. destruct e; simpl; auto. Qed.

Lemma of_lookup_no_orchestration uid evs :
  Forall (of_lookup uid) evs -> List.filter is_orchestration evs = [].
Proof.
  induction 1 as [|e evs He _ IH]; [done|].
  simpl. rewrite IH. by destruct e.
Qed.

Lemma _save_json_response_trace uid r save_empty w :
  trace (_save_json_response uid r save_empty w) = trace w.
Proof. unfold _save_json_response. by repeat case_match. Qed.

Lemma create_tasks_trace batch w :
  trace (create_tasks batch w) = trace w ++ List.map EvCreateTask batch.
Proof.
  unfold create_tasks. revert w. induction batch as [|uid batch IH]; intros w.
  - by rewrite app_nil_r.
  - cbn [fold_left List.map]. rewrite IH. cbn. by rewrite <- app_assoc.
Qed.

Lemma await_tasks_trace fuel server save_empty tasks acc w :
  exists evs rest,
    trace (final (await_tasks fuel server save_empty tasks acc w))
    = trace w ++ evs
    ∧ Forall (about tasks) evs
    ∧ List.filter is_orchestration evs ++ rest = List.map EvAwait tasks
    ∧ (forall a w', await_tasks fuel server save_empty tasks acc w = Done a w'
         -> rest = []).
Proof.
  revert acc w. induction tasks as [|uid tasks IH]; intros acc w.
  { exists [], []. cbn. by rewrite app_nil_r. }
  cbn [await_tasks].
  destruct (check_user_trace fuel server uid 0 (log (EvAwait uid) w))
    as (evs1 & Htr & Hevs1).
  assert (Hab1 : Forall (about (uid :: tasks)) (EvAwait uid :: evs1)).
  { constructor; [cbn; set_solver|].
    eapply Forall_impl; [exact Hevs1|]. intros e. apply of_lookup_about.
    set_solver. }
  assert (Hlater : forall evs2, Forall (about tasks) evs2 ->
            Forall (about (uid :: tasks)) evs2).
  { intros evs2 H2. eapply Forall_impl; [exact H2|]. intros e.
    apply about_mono. set_solver. }
  pose proof (of_lookup_no_orchestration _ _ Hevs1) as Hno.
  destruct (check_user fuel server uid 0 (log (EvAwait uid) w))
    as [[result|] w1|w1] eqn:Hcu; cbn [final] in Htr.
  - destruct (IH (mkCounters (S (completed acc))
                   (if result_truthy result then S (found_count acc)
                    else found_count acc))
                 (_save_json_response uid result save_empty w1))
      as (evs2 & rest & Htr2 & Hab2 & Horch & Hdone).
    exists (EvAwait uid :: evs1 ++ evs2), rest.
    rewrite Htr2, _save_json_response_trace, Htr. cbn.
    rewrite <- !app_assoc. split; [done|].
    split; [rewrite app_comm_cons; apply Forall_app; auto|].
    rewrite List.filter_app, Hno. cbn. by rewrite Horch.
  - destruct (IH (mkCounters (S (completed acc)) (found_count acc)) w1)
      as (evs2 & rest & Htr2 & Hab2 & Horch & Hdone).
    exists (EvAwait uid :: evs1 ++ evs2), rest.
    rewrite Htr2, Htr. cbn.
    rewrite <- !app_assoc. split; [done|].
    split; [rewrite app_comm_cons; apply Forall_app; auto|].
    rewrite List.filter_app, Hno. cbn. by rewrite Horch.
  - exists (EvAwait uid :: evs1), (List.map EvAwait tasks).
    cbn [final]. rewrite Htr. cbn. rewrite <- !app_assoc.
    split; [done|]. split; [done|]. by rewrite Hno.
Qed.

Lemma process_batches_trace fuel server save_empty todo acc w :
  exists evs rest,
    trace (final (process_batches fuel server save_empty todo acc w))
    = trace w ++ evs
    ∧ Forall (about (concat todo)) evs
    ∧ List.filter is_orchestration evs ++ rest = schedule todo
    ∧ (forall a w', process_batches fuel server save_empty todo acc w = Done a w'
         -> rest = []).
Proof.
  revert acc w. induction todo as [|batch todo IH]; intros acc w.
  { exists [], []. cbn. by rewrite app_nil_r. }
  cbn [process_batches].
  destruct (await_tasks_trace fuel server save_empty batch acc
              (create_tasks batch w)) as (evs1 & rest1 & Htr & Hab1 & Horch1 & Hdone1).
  rewrite create_tasks_trace in Htr.
  assert (Hcreated : Forall (about (concat (batch :: todo)))
                            (List.map EvCreateTask batch)).
  { apply Forall_forall. intros e [uid [<- Hin]]%list_elem_of_In%in_map_iff.
    cbn. apply elem_of_app. left. by apply list_elem_of_In. }
  assert (Hfc : List.filter is_orchestration (List.map EvCreateTask batch)
                = List.map EvCreateTask batch).
  { clear. induction batch; cbn; by f_equal. }
  assert (Hab1' : Forall (about (concat (batch :: todo))) evs1).
  { eapply Forall_impl; [exact Hab1|]. intros e. apply about_mono.
    intros x Hx. cbn. apply elem_of_app. by left. }
  destruct (await_tasks fuel server save_empty batch acc (create_tasks batch w))
    as [acc1 w1|w1] eqn:Haw; cbn [final] in Htr.
  - specialize (Hdone1 _ _ eq_refl). subst rest1. rewrite app_nil_r in Horch1.
    destruct (IH acc1 w1) as (evs2 & rest & Htr2 & Hab2 & Horch & Hdone).
    exists (List.map EvCreateTask batch ++ evs1 ++ evs2), rest.
    rewrite Htr2, Htr, <- !app_assoc. split; [done|].
    split.
    + rewrite !Forall_app. repeat split; [done..|].
      eapply Forall_impl; [exact Hab2|]. intros e. apply about_mono.
      intros x Hx. cbn. apply elem_of_app. by right.
    + split; [|exact Hdone].
      rewrite !List.filter_app, Hfc, Horch1. cbn [schedule flat_map].
      rewrite <- !app_assoc. do 2 f_equal. exact Horch.
  - exists (List.map EvCreateTask batch ++ evs1), (rest1 ++ schedule todo).
    cbn [final]. rewrite Htr, <- !app_assoc. split; [done|].
    split; [by apply Forall_app|]. split; [|done].
    rewrite List.filter_app, Hfc. cbn [schedule flat_map].
    rewrite <- Horch1, <- !app_assoc. done.
Qed.

Lemma skip_known_spec not_found_ids user_ids uid :
  uid ∈ skip_known not_found_ids user_ids
  <-> uid ∈ user_ids ∧ uid ∉ not_found_ids.
Proof.
  unfold skip_known. rewrite !list_elem_of_In, filter_In.
  by rewrite bool_decide_eq_true.
Qed.

Lemma process_user_ids_trace fuel server c input save_empty w :
  exists evs,
    trace (final (process_user_ids fuel server c input save_empty w))
    = trace w ++ evs
    ∧ Forall (about (skip_known (_load_404_ids w)
                                (default [] (read_user_ids input)))) evs.
Proof.
  assert (Hnil : exists evs, trace w = trace w ++ evs
            ∧ Forall (about (skip_known (_load_404_ids w)
                                        (default [] (read_user_ids input)))) evs).
  { exists []. by rewrite app_nil_r. }
  unfold process_user_ids.
  destruct (read_user_ids input) as [[|u user_ids]|]; [done| |done].
  cbn [default] in *.
  destruct (skip_known _ _) as [|r remaining] eqn:Hskip; [done|].
  destruct (batches (r :: remaining) (c * 2)) as [todo|] eqn:Hb; [|done].
  destruct (process_batches_trace fuel server save_empty todo (mkCounters 0 0) w)
    as (evs & rest & Htr & Hab & _).
  exists evs. split.
  - by destruct (process_batches _ _ _ _ _ _).
  - eapply Forall_impl; [exact Hab|]. intros e. apply about_mono.
    by apply batches_subset with (c * 2).
Qed.

(** C1.  An identifier that is in the set loaded from 404.txt when the run
    starts is dropped before the batches are cut: whatever the fuel, the
    server, the input file and the concurrency, the run creates no task
    for it and sends no request for it. *)
Theorem ledger_ids_are_never_requested
    fuel server max_concurrent input_file save_empty w uid :
  uid ∈ _load_404_ids w ->
  exists evs,
    trace (final (process_user_ids fuel server max_concurrent input_file
                                   save_empty w))
    = trace w ++ evs
    ∧ count (is_get_for uid) evs = O
    ∧ ~ In (EvCreateTask uid) evs.
Proof.
  intros Hledger.
  destruct (process_user_ids_trace fuel server max_concurrent input_file
              save_empty w) as (evs & Htr & Hab).
  exists evs. split; [done|].
  assert (Hout : uid ∉ skip_known (_load_404_ids w)
                                  (default [] (read_user_ids input_file))).
  { rewrite skip_known_spec. tauto. }
  clear Htr. split.
  - unfold count. induction Hab as [|e evs He _ IH]; [done|].
    cbn. destruct e as [u r| | |]; cbn; try exact IH.
    destruct (String.eqb_spec u uid) as [->|]; [done|exact IH].
  - intros Hin. rewrite Forall_forall in Hab.
    apply list_elem_of_In in Hin. by apply Hab in Hin.
Qed.

Lemma ledger_ids_are_never_requested_witness :
  let w := fresh 0 (Lines ["usr_B"]) ∅ in
  exists evs,
    trace (final (process_user_ids 50 (fun _ _ => Response 404 Undecodable) 5
                    (Lines ["usr_A"; "usr_B"]) false w))
    = trace w ++ evs
    ∧ count (is_get_for "usr_B") evs = O
    ∧ ~ In (EvCreateTask "usr_B") evs.
Proof.
  apply ledger_ids_are_never_requested. vm_compute. done.
Defined.


(** C8 (amended).  For a concurrency limit of at least 1, the identifiers
    left by the ledger filter are cut into consecutive batches of
    [2 * max_concurrent] identifiers, the last one possibly shorter and
    none empty; the main loop creates the tasks of a batch, awaits each of
    them, and only then turns to the next batch, in the order of the
    input.  With any amount of fuel the creations and awaits of the run
    are an initial part of that schedule, and all of it when the run
    ends. *)
Theorem batches_run_in_order
    fuel server max_concurrent input_file save_empty w user_ids :
  0 < max_concurrent ->
  read_user_ids input_file = Some user_ids ->
  let remaining := skip_known (_load_404_ids w) user_ids in
  let outcome := process_user_ids fuel server max_concurrent input_file
                                  save_empty w in
  exists todo,
    batches remaining (max_concurrent * 2) = Some todo
    ∧ concat todo = remaining
    ∧ (forall k batch, todo !! k = Some batch ->
         (0 < length batch <= Z.to_nat (max_concurrent * 2))%nat
         ∧ ((S k < length todo)%nat ->
            length batch = Z.to_nat (max_concurrent * 2)))
    ∧ exists evs rest,
        trace (final outcome) = trace w ++ evs
        ∧ List.filter is_orchestration evs ++ rest = schedule todo
        ∧ (forall x w', outcome = Done x w' -> rest = []).
Proof.
  intros Hc Hread remaining outcome.
  destruct (batches_partition remaining (max_concurrent * 2) ltac:(lia))
    as (todo & Hb & Hcat & Hlen).
  exists todo. do 3 (split; [done|]).
  assert (Hempty : remaining = [] -> todo = []).
  { intros Hrem. destruct todo as [|batch todo]; [done|].
    destruct (Hlen O batch eq_refl) as [Hpos _].
    rewrite Hrem in Hcat. cbn in Hcat. apply app_eq_nil in Hcat as [-> _].
    cbn in Hpos. lia. }
  assert (Hidle : remaining = [] -> exists evs rest,
            trace w = trace w ++ evs
            ∧ List.filter is_orchestration evs ++ rest = schedule todo
            ∧ (forall (x : exit) (w' : world), Done x w = Done x w' -> rest = [])).
  { intros Hrem. exists [], []. rewrite (Hempty Hrem), app_nil_r. done. }
  subst outcome. unfold process_user_ids. rewrite Hread.
  destruct user_ids as [|u user_ids].
  { destruct Hidle as (evs & rest & H1 & H2 & H3); [done|].
    exists evs, rest. split; [done|]. split; [done|].
    intros x w' Hx. apply (H3 NothingToDo w'). by injection Hx as _ <-. }
  fold remaining. destruct remaining as [|r rem] eqn:Hrem.
  { destruct Hidle as (evs & rest & H1 & H2 & H3); [done|].
    exists evs, rest. split; [done|]. split; [done|].
    intros x w' Hx. apply (H3 NothingToDo w'). by injection Hx as _ <-. }
  rewrite Hb.
  destruct (process_batches_trace fuel server save_empty todo (mkCounters 0 0) w)
    as (evs & rest & Htr & _ & Horch & Hdone).
  exists evs, rest.
  destruct (process_batches fuel server save_empty todo (mkCounters 0 0) w)
    as [totals w1|w1]; cbn [final] in *.
  - split; [done|]. split; [done|]. intros _ _ _. by eapply Hdone.
  - split; [done|]. split; [done|]. intros x w' [=].
Qed.

Lemma batches_run_in_order_witness :
  let w := fresh 0 (Lines ["x"]) ∅ in
  let ids := ["a"; "b"; "c"; "x"; "d"; "e"] in
  exists todo,
    batches (skip_known (_load_404_ids w) ids) (2 * 2) = Some todo
    ∧ concat todo = skip_known (_load_404_ids w) ids.
Proof.
  intros w ids.
  destruct (batches_run_in_order 9 (fun _ _ => Response 404 Undecodable) 2
              (Lines ids) false w ids) as (todo & Hb & Hcat & _).
  - lia.
  - vm_compute. reflexivity.
  - exists todo. split; [exact Hb|exact Hcat].
Defined.

(** C8 as stated fails for a concurrency limit that is not positive: with
    0 the range of the loop raises ValueError, with -1 the loop body never
    runs although an identifier is left to look up. *)
Lemma batches_need_positive_concurrency :
  let w := fresh 0 Missing ∅ in
  let server := fun (_ : string) (_ : nat) => Response 404 Undecodable in
  skip_known (_load_404_ids w) ["usr_A"] = ["usr_A"]
  ∧ process_user_ids 9 server 0 (Lines ["usr_A"]) false w = Done ValueError w
  ∧ batches ["usr_A"] (-1 * 2) = Some []
  ∧ process_user_ids 9 server (-1) (Lines ["usr_A"]) false w
    = Done (Finished (mkCounters 0 0)) w.
Proof. vm_compute. done. Qed.


Lemma new_events_app w w' evs :
  trace w' = trace w ++ evs -> new_events w w' = evs.
Proof. unfold new_events. intros ->. apply drop_app_length. Qed.

(** ** One call of [check_user] that reaches the network *)

Lemma _check_cache_miss_fields uid w r w1 :
  _check_cache uid w = (r, w1) ->
  clock w1 = clock w ∧ rate_limiter w1 = rate_limiter w
  ∧ ledger_file w1 = ledger_file w ∧ snapshot_files w1 = snapshot_files w
  ∧ sent w1 = sent w ∧ trace w1 = trace w.
Proof.
  intros H. pose proof (_check_cache_fields uid w) as Hf.
  rewrite H in Hf. exact Hf.
Qed.

Lemma check_user_request fuel server uid rc w w1 w2 :
  existing_json uid w = None ->
  _check_cache uid w = (None, w1) ->
  wait_if_needed fuel w1 = Done tt w2 ->
  check_user (S fuel) server uid rc w
  = match on_reply uid rc (server uid (sent w))
                   (session_get server uid w2).2 with
    | Finish o w5 => Done o w5
    | Again rc' w5 => check_user fuel server uid rc' w5
    end.
Proof.
  intros Hsnap Hcache Hgate. cbn [check_user].
  rewrite Hsnap, Hcache, Hgate. cbn [session_get snd].
  apply wait_if_needed_done in Hgate as [[k ->] _].
  destruct (settle_fields k w1) as (_ & _ & _ & _ & -> & _).
  apply _check_cache_miss_fields in Hcache as (_ & _ & _ & _ & -> & _).
  done.
Qed.

(** The world in which the request of a call is sent, seen from the world
    the call started in. *)
Lemma gate_fields uid w r w1 k :
  _check_cache uid w = (r, w1) ->
  let w2 := settle k w1 in
  rate_limiter w2 = rate_limiter w ∧ cache w2 = cache w1
  ∧ ledger_file w2 = ledger_file w ∧ snapshot_files w2 = snapshot_files w
  ∧ sent w2 = sent w
  ∧ clock w2 = clock w + Z.of_nat k * quarter_second
  ∧ trace w2 = trace w ++ repeat (EvSleep quarter_second) k.
Proof.
  intros Hcache. cbv zeta.
  apply _check_cache_miss_fields in Hcache as (Hc & Hr & Hl & Hs & Hn & Ht).
  destruct (settle_fields k w1) as (-> & -> & -> & -> & -> & -> & ->).
  by rewrite Hc, Hr, Hl, Hs, Hn, Ht.
Qed.

Lemma _check_cache_quota uid w :
  quota_positive w -> quota_positive (_check_cache uid w).2.
Proof.
  unfold quota_positive.
  by destruct (_check_cache_fields uid w) as (_ & -> & _).
Qed.

(** A call whose snapshot block falls through and whose cache read
    gives nothing gets through the rate gate and is answered by what
    [on_reply] makes of the reply. *)
Lemma reaches_request server uid rc w :
  quota_positive w ->
  existing_json uid w = None ->
  (_check_cache uid w).1 = None ->
  exists k w3,
    (forall fuel, (k <= fuel)%nat ->
       check_user (S fuel) server uid rc w
       = match on_reply uid rc (server uid (sent w)) w3 with
         | Finish o w5 => Done o w5
         | Again rc' w5 => check_user fuel server uid rc' w5
         end)
    ∧ ledger_file w3 = ledger_file w
    ∧ snapshot_files w3 = snapshot_files w
    ∧ cache w3 = cache (_check_cache uid w).2
    ∧ trace w3 = trace w ++ repeat (EvSleep quarter_second) k
                         ++ [EvGet uid (server uid (sent w))].
Proof.
  intros Hq Hsnap Hmiss.
  destruct (_check_cache uid w) as [r w1] eqn:Hcache. cbn in Hmiss. subst r.
  pose proof (_check_cache_quota uid w Hq) as Hq1. rewrite Hcache in Hq1.
  destruct (wait_if_needed_settles w1 Hq1) as (k & _ & Hgate).
  destruct (gate_fields uid w None w1 k Hcache)
    as (_ & Hc & Hl & Hs & Hn & _ & Ht).
  exists k, (session_get server uid (settle k w1)).2.
  split; [|cbn; by rewrite Hl, Hs, Hc, Ht, Hn, <- app_assoc].
  intros fuel Hfuel.
  by rewrite (check_user_request fuel server uid rc w w1 (settle k w1) Hsnap
                Hcache (Hgate fuel Hfuel)).
Qed.

Lemma count_get_request k e :
  is_get e = true ->
  count is_get (repeat (EvSleep quarter_second) k ++ [e]) = 1%nat.
Proof.
  intros He. unfold count. rewrite List.filter_app, length_app. cbn.
  rewrite He. cbn.
  assert (Hz : List.filter is_get (repeat (EvSleep quarter_second) k) = []).
  { clear. induction k; [done|]. cbn. exact IHk. }
  by rewrite Hz.
Qed.

(** C2 (amended).  When the lookup of an identifier reaches the network
    and the reply is a 200 whose body has a false (or no) isYoinker flag,
    [check_user] returns None and stores None for the identifier in the
    in-memory cache, stamped with the current time; 404.txt is left as it
    was.  It is the 404 reply that appends the identifier to 404.txt,
    with no look at what the file holds: the characters of the identifier
    and a line feed go after those of the file. *)
Theorem negative_200_is_cached_not_ledgered server uid rc w :
  quota_positive w ->
  existing_json uid w = None ->
  (_check_cache uid w).1 = None ->
  exists n, forall fuel, (n <= fuel)%nat ->
    (forall data,
       server uid (sent w) = Response 200 (Decoded data) ->
       is_yoinker data = Some false ->
       exists w',
         check_user fuel server uid rc w = Done (Returned None) w'
         ∧ cache w' !! uid = Some (clock w', None)
         ∧ ledger_file w' = ledger_file w
         ∧ count is_get (new_events w w') = 1%nat)
    ∧ (forall content,
         server uid (sent w) = Response 404 content ->
         exists w',
           check_user fuel server uid rc w = Done (Returned None) w'
           ∧ cache w' !! uid = Some (clock w', None)
           ∧ ledger_file w' = append_line uid (ledger_file w)
           ∧ (forall chars,
                ledger_file w = mkFile (Text chars) true ->
                ledger_file w'
                = mkFile (Text (String.append chars
                                  (String.append uid (String LF "")))) true)
           ∧ count is_get (new_events w w') = 1%nat).
Proof.
  intros Hq Hsnap Hmiss.
  destruct (reaches_request server uid rc w Hq Hsnap Hmiss)
    as (k & w3 & Hrun & Hl & _ & _ & Ht).
  exists (S k). intros [|fuel] Hfuel; [lia|].
  rewrite (Hrun fuel) by lia. split.
  - intros data Hrep Hneg. rewrite Hrep. cbn [on_reply Z.eqb Pos.eqb].
    rewrite Hneg. eexists. split; [done|].
    split; [cbn; by rewrite lookup_insert_eq|]. split; [done|].
    match goal with |- context [new_events w ?x] =>
      change (new_events w x) with (new_events w w3) end.
    rewrite (new_events_app w _ _ Ht). by apply count_get_request.
  - intros content Hrep. rewrite Hrep. cbn [on_reply Z.eqb Pos.eqb].
    eexists. split; [done|].
    split; [cbn; by rewrite lookup_insert_eq|].
    split; [cbn; by rewrite Hl|]. split.
    + intros chars Hchars. cbn. by rewrite Hl, Hchars.
    + match goal with |- context [new_events w ?x] =>
        change (new_events w x) with (new_events w w3) end.
      rewrite (new_events_app w _ _ Ht). by apply count_get_request.
Qed.

Lemma negative_200_is_cached_not_ledgered_witness :
  let server := fun (_ : string) (_ : nat) =>
    Response 200 (Decoded (JObj [("isYoinker", JBool false)])) in
  let w := fresh 0 Missing ∅ in
  exists n, forall fuel, (n <= fuel)%nat ->
    exists w',
      check_user fuel server "usr_A" 0 w = Done (Returned None) w'
      ∧ cache w' !! "usr_A" = Some (clock w', None)
      ∧ ledger_file w' = ledger_file w
      ∧ count is_get (new_events w w') = 1%nat.
Proof.
  intros server w.
  destruct (negative_200_is_cached_not_ledgered server "usr_A" 0 w)
    as [n Hn].
  - unfold quota_positive. cbn. lia.
  - reflexivity.
  - reflexivity.
  - exists n. intros fuel Hfuel. destruct (Hn fuel Hfuel) as [H200 _].
    exact (H200 (JObj [("isYoinker", JBool false)]) eq_refl eq_refl).
Defined.

(** C2 as stated fails: after a 200 reply with a false flag the
    identifier is not in 404.txt, which still does not exist. *)
Lemma negative_200_does_not_reach_ledger :
  let server := fun (_ : string) (_ : nat) =>
    Response 200 (Decoded (JObj [("isYoinker", JBool false)])) in
  let w := fresh 0 Missing ∅ in
  let outcome := check_user 5 server "usr_A" 0 w in
  (exists w', outcome = Done (Returned None) w')
  ∧ trace (final outcome)
    = [EvGet "usr_A" (Response 200 (Decoded (JObj [("isYoinker", JBool false)])))]
  ∧ ledger_file (final outcome) = Missing
  ∧ "usr_A" ∉ _load_404_ids (final outcome).
Proof.
  cbv zeta. split; [eexists; vm_compute; reflexivity|].
  split; [vm_compute; reflexivity|].
  split; [vm_compute; reflexivity|].
  assert (H : _load_404_ids (final (check_user 5
     (fun _ _ => Response 200 (Decoded (JObj [("isYoinker", JBool false)])))
     "usr_A" 0 (fresh 0 Missing ∅))) = ∅) by (vm_compute; reflexivity).
  rewrite H. set_solver.
Qed.


(** C9 (amended).  A cached None that has not expired does not stop the
    lookup: [_check_cache] hands it back as None, which [check_user]
    reads as nothing cached, so when the snapshot block has fallen
    through (no snapshot file for the identifier, or one that cannot be
    read as a JSON object) the call waits at the rate gate and sends a
    request for the identifier. *)
Theorem cached_negative_is_requested_again server uid rc w t :
  quota_positive w ->
  existing_json uid w = None ->
  cache w !! uid = Some (t, None) ->
  clock w - t < cache_ttl ->
  _check_cache uid w = (None, w)
  ∧ exists k, forall fuel, (k < fuel)%nat ->
      exists rest,
        trace (final (check_user fuel server uid rc w))
        = trace w ++ repeat (EvSleep quarter_second) k
                  ++ EvGet uid (server uid (sent w)) :: rest.
Proof.
  intros Hq Hsnap Hentry Hfresh.
  assert (Hcache : _check_cache uid w = (None, w)).
  { unfold _check_cache. rewrite Hentry.
    by destruct (Z.ltb_spec (clock w - t) cache_ttl); [|lia]. }
  split; [done|].
  destruct (wait_if_needed_settles w Hq) as (k & _ & Hgate).
  destruct (gate_fields uid w None w k Hcache) as (_ & _ & _ & _ & Hn & _ & Ht).
  exists k. intros [|fuel] Hfuel; [lia|].
  rewrite (check_user_request fuel server uid rc w w (settle k w))
    by (try done; apply Hgate; lia).
  cbn [session_get snd]. rewrite Hn.
  destruct (on_reply _ _ _ _) as [o w5|rc' w5] eqn:Hreply; cbn [final].
  - apply on_reply_finish in Hreply as (-> & _). cbn. rewrite Ht.
    exists []. by rewrite <- app_assoc.
  - apply on_reply_again in Hreply as ([d Hd] & _).
    destruct (check_user_trace fuel server uid rc' w5) as (evs & -> & _).
    rewrite Hd. cbn. rewrite Ht. exists (EvSleep d :: evs).
    by rewrite <- !app_assoc.
Qed.

Lemma cached_negative_is_requested_again_witness :
  let server := fun (_ : string) (_ : nat) => Response 404 Undecodable in
  let w := _add_to_cache "usr_A" None (fresh 0 Missing ∅) in
  _check_cache "usr_A" w = (None, w)
  ∧ exists k, forall fuel, (k < fuel)%nat ->
      exists rest,
        trace (final (check_user fuel server "usr_A" 0 w))
        = trace w ++ repeat (EvSleep quarter_second) k
                  ++ EvGet "usr_A" (server "usr_A" (sent w)) :: rest.
Proof.
  intros server w.
  apply (cached_negative_is_requested_again server "usr_A" 0 w 0).
  - unfold quota_positive. cbn. lia.
  - reflexivity.
  - reflexivity.
  - reflexivity.
Defined.

(** C9 as stated fails when the identifier has a snapshot file: with a
    cached None that has not expired and the placeholder that
    [_save_json_response] wrote under save_empty, the lookup returns None
    from the snapshot block, without rate gate and without request. *)
Lemma cached_negative_behind_a_snapshot :
  let server := fun (_ : string) (_ : nat) =>
    Response 200 (Decoded sample_record) in
  let w := _save_json_response "usr_A" None true
             (_add_to_cache "usr_A" None (fresh 0 Missing ∅)) in
  let outcome := check_user 5 server "usr_A" 0 w in
  cache w !! "usr_A" = Some (0, None)
  ∧ clock w - 0 < cache_ttl
  ∧ (exists w', outcome = Done (Returned None) w')
  ∧ new_events w (final outcome) = [].
Proof.
  cbv zeta. split; [vm_compute; reflexivity|]. split; [reflexivity|].
  split; [eexists; vm_compute; reflexivity|]. vm_compute; reflexivity.
Qed.

(** ** The snapshot block *)

(** A call whose snapshot block falls through and whose cache read gives
    nothing sends a request, after the polls of the rate gate. *)
Lemma miss_sends_request server uid rc w :
  quota_positive w ->
  existing_json uid w = None ->
  (_check_cache uid w).1 = None ->
  exists k, forall fuel, (k < fuel)%nat ->
    exists rest,
      trace (final (check_user fuel server uid rc w))
      = trace w ++ repeat (EvSleep quarter_second) k
                ++ EvGet uid (server uid (sent w)) :: rest.
Proof.
  intros Hq Hsnap Hmiss.
  destruct (reaches_request server uid rc w Hq Hsnap Hmiss)
    as (k & w3 & Hrun & _ & _ & _ & Ht).
  exists k. intros [|fuel] Hfuel; [lia|]. rewrite (Hrun fuel) by lia.
  destruct (on_reply _ _ _ _) as [o w5|rc' w5] eqn:Hreply; cbn [final].
  - apply on_reply_finish in Hreply as (-> & _). rewrite Ht. by exists [].
  - apply on_reply_again in Hreply as ([d Hd] & _).
    destruct (check_user_trace fuel server uid rc' w5) as (evs & -> & _).
    rewrite Hd, Ht. exists (EvSleep d :: evs).
    by rewrite <- !app_assoc.
Qed.

(** C7 (amended).  When the snapshot file of an identifier exists and
    can be read as a JSON object, [check_user] answers from it and sends
    nothing: the object itself when its isYoinker flag is true, None
    otherwise, and then the identifier is appended to 404.txt unless the
    set loaded from the file at that moment has it.  When the file exists
    but cannot be opened or decoded, or does not hold an object, the
    block falls through: the call returns the record the cache holds, if
    it holds one in time, and otherwise goes through the rate gate and
    sends a request. *)
Theorem snapshot_answers_without_request fuel server uid rc w node :
  snapshot_files w !! uid = Some node ->
  snapshot_exists node = true ->
  (forall data found,
     snapshot_reads node = Some data ->
     is_yoinker data = Some found ->
     exists w',
       check_user (S fuel) server uid rc w
       = Done (Returned (if found then Some data else None)) w'
       ∧ trace w' = trace w ∧ sent w' = sent w
       ∧ ledger_file w'
         = (if found then ledger_file w
            else if decide (uid ∈ _load_404_ids w) then ledger_file w
                 else append_line uid (ledger_file w)))
  ∧ ((snapshot_reads node = None
      \/ exists data, snapshot_reads node = Some data
                      ∧ is_yoinker data = None) ->
     existing_json uid w = None
     ∧ (forall data,
          (_check_cache uid w).1 = Some data ->
          exists w',
            check_user (S fuel) server uid rc w
            = Done (Returned (Some data)) w'
            ∧ trace w' = trace w)
     ∧ (quota_positive w ->
        (_check_cache uid w).1 = None ->
        exists k, forall fuel', (k < fuel')%nat ->
          exists rest,
            trace (final (check_user fuel' server uid rc w))
            = trace w ++ repeat (EvSleep quarter_second) k
                      ++ EvGet uid (server uid (sent w)) :: rest)).
Proof.
  intros Hfile Hexists. split.
  - intros data found Hread Hflag. cbn [check_user]. unfold existing_json.
    rewrite Hfile, Hexists, Hread, Hflag. destruct found.
    + exists w. by repeat split.
    + destruct (decide (uid ∈ _load_404_ids w)) as [Hin|Hout].
      * exists w. by repeat split.
      * eexists. by repeat split.
  - intros Hbad.
    assert (Hsnap : existing_json uid w = None).
    { unfold existing_json. rewrite Hfile, Hexists.
      destruct Hbad as [-> | (data & -> & ->)]; done. }
    split; [done|]. split.
    + intros data Hhit. cbn [check_user]. rewrite Hsnap.
      destruct (_check_cache uid w) as [r w1] eqn:Hcache. cbn in Hhit.
      subst r. exists w1. split; [done|].
      by apply _check_cache_miss_fields in Hcache as (_ & _ & _ & _ & _ & ->).
    + intros Hq Hmiss. by apply miss_sends_request.
Qed.

Lemma snapshot_answers_without_request_witness :
  let w := fresh 0 Missing {[ "usr_A" := Stored (not_found_record "usr_A") ]} in
  exists w',
    check_user 1 (fun _ _ => TimeoutError) "usr_A" 0 w = Done (Returned None) w'
    ∧ trace w' = trace w ∧ sent w' = sent w
    ∧ ledger_file w'
      = (if decide ("usr_A" ∈ _load_404_ids w) then ledger_file w
         else append_line "usr_A" (ledger_file w)).
Proof.
  intros w.
  destruct (snapshot_answers_without_request 0 (fun _ _ => TimeoutError)
              "usr_A" 0 w (Stored (not_found_record "usr_A"))) as [Hgood _].
  - reflexivity.
  - reflexivity.
  - exact (Hgood (not_found_record "usr_A") false eq_refl eq_refl).
Defined.

(** C7 as stated fails for a snapshot file that exists and cannot be
    decoded: the lookup goes on to the network and, here, comes back with
    a positive record. *)
Lemma corrupt_snapshot_is_requested :
  let found := JObj [("isYoinker", JBool true); ("userName", JStr "Foo")] in
  let server := fun (_ : string) (_ : nat) => Response 200 (Decoded found) in
  let w := fresh 0 Missing {[ "usr_A" := Corrupt ]} in
  let outcome := check_user 5 server "usr_A" 0 w in
  snapshot_files w !! "usr_A" = Some Corrupt
  ∧ (exists w', outcome = Done (Returned (Some found)) w')
  ∧ trace (final outcome) = [EvGet "usr_A" (Response 200 (Decoded found))]
  ∧ ledger_file (final outcome) = Missing.
Proof.
  cbv zeta. split; [reflexivity|].
  split; [eexists; vm_compute; reflexivity|].
  split; vm_compute; reflexivity.
Qed.

(** C6.  An entry that [_add_to_cache] wrote when the clock read T is
    handed back by [_check_cache] at every instant before T plus 30
    minutes, the world unchanged; from T plus 30 minutes on the read
    returns None and removes the entry.  A stored record, read in time,
    is what [check_user] returns, without a request. *)
Theorem cache_entry_lives_thirty_minutes w0 w uid r :
  cache w !! uid = cache (_add_to_cache uid r w0) !! uid ->
  (clock w < clock w0 + minutes 30 -> _check_cache uid w = (r, w))
  ∧ (clock w0 + minutes 30 <= clock w ->
     (_check_cache uid w).1 = None
     ∧ cache (_check_cache uid w).2 !! uid = None)
  ∧ (clock w < clock w0 + minutes 30 ->
     forall data fuel server rc,
       r = Some data -> existing_json uid w = None ->
       check_user (S fuel) server uid rc w = Done (Returned (Some data)) w).
Proof.
  intros Hentry. unfold _add_to_cache in Hentry. cbn in Hentry.
  rewrite lookup_insert_eq in Hentry.
  assert (Hhit : clock w < clock w0 + minutes 30 -> _check_cache uid w = (r, w)).
  { intros Hlt. unfold _check_cache, cache_ttl. rewrite Hentry.
    by destruct (Z.ltb_spec (clock w - clock w0) (minutes 30)); [|lia]. }
  split; [exact Hhit|]. split.
  - intros Hge. unfold _check_cache, cache_ttl. rewrite Hentry.
    destruct (Z.ltb_spec (clock w - clock w0) (minutes 30)); [lia|].
    cbn. split; [done|]. case_match; cbn; [done|apply lookup_delete_eq].
  - intros Hlt data fuel server rc -> Hsnap. cbn [check_user].
    by rewrite Hsnap, (Hhit Hlt).
Qed.

Lemma cache_entry_lives_thirty_minutes_witness :
  let w0 := fresh 0 Missing ∅ in
  let w := set_clock (minutes 30 - 1) (_add_to_cache "usr_A" (Some sample_record) w0) in
  (clock w < clock w0 + minutes 30 ->
     _check_cache "usr_A" w = (Some sample_record, w))
  ∧ (clock w0 + minutes 30 <= clock w ->
     (_check_cache "usr_A" w).1 = None
     ∧ cache (_check_cache "usr_A" w).2 !! "usr_A" = None)
  ∧ (clock w < clock w0 + minutes 30 ->
     forall data fuel server rc,
       Some sample_record = Some data -> existing_json "usr_A" w = None ->
       check_user (S fuel) server "usr_A" rc w = Done (Returned (Some data)) w).
Proof.
  intros w0 w.
  apply (cache_entry_lives_thirty_minutes w0 w "usr_A" (Some sample_record)).
  reflexivity.
Defined.

(** C5 (amended).  [_add_to_cache] inserts or overwrites one entry,
    stamped with the current time, and never clears the table: the size
    grows by one for a new key and stays for a stored one, so a 513th
    distinct entry makes the table 513 long.  [_check_cache] returns the
    entry of a stored, unexpired key whatever the size.  The table is
    cleared by a lookup that misses: of an absent key when more than 512
    entries are stored, of an expired key when more than 512 are left
    once its own entry has been deleted; with fewer, an absent key
    changes nothing and an expired key loses its own entry only.  In a
    cleared table every key misses. *)
Theorem oversized_cache_is_shed_by_a_miss w uid r :
  let w1 := _add_to_cache uid r w in
  (cache w1 = <[uid := (clock w, r)]> (cache w)
   ∧ cache w1 !! uid = Some (clock w, r)
   ∧ (forall k, k <> uid -> cache w1 !! k = cache w !! k)
   ∧ size (cache w1) = match cache w !! uid with
                       | Some _ => size (cache w)
                       | None => S (size (cache w))
                       end
   ∧ (size (cache w) = 512%nat -> cache w !! uid = None ->
      size (cache w1) = 513%nat
      ∧ (forall k t v now, cache w1 !! k = Some (t, v) -> now - t < cache_ttl ->
           _check_cache k (set_clock now w1) = (v, set_clock now w1))
      ∧ (forall other now, cache w1 !! other = None ->
           _check_cache other (set_clock now w1)
           = (None, set_cache ∅ (set_clock now w1)))
      ∧ (forall now, cache_ttl <= now - clock w ->
           _check_cache uid (set_clock now w1)
           = (None, set_cache (delete uid (cache w1)) (set_clock now w1)))))
  ∧ (forall t v, cache w !! uid = Some (t, v) -> clock w - t < cache_ttl ->
       _check_cache uid w = (v, w))
  ∧ (cache w !! uid = None ->
       _check_cache uid w
       = (None, if Nat.ltb 512 (size (cache w)) then set_cache ∅ w else w))
  ∧ (forall t v, cache w !! uid = Some (t, v) -> cache_ttl <= clock w - t ->
       _check_cache uid w
       = (None, if Nat.ltb 513 (size (cache w)) then set_cache ∅ w
                else set_cache (delete uid (cache w)) w))
  ∧ (forall k later,
       _check_cache k (set_clock later (set_cache ∅ w))
       = (None, set_clock later (set_cache ∅ w))).
Proof.
  intros w1.
  assert (Hhit : forall w k t v, cache w !! k = Some (t, v) ->
            clock w - t < cache_ttl -> _check_cache k w = (v, w)).
  { intros w0 k t v Hk Hlt. unfold _check_cache. rewrite Hk.
    by destruct (Z.ltb_spec (clock w0 - t) cache_ttl); [|lia]. }
  assert (Habsent : forall w k, cache w !! k = None ->
            _check_cache k w
            = (None, if Nat.ltb 512 (size (cache w)) then set_cache ∅ w else w)).
  { intros w0 k Hk. unfold _check_cache. by rewrite Hk. }
  assert (Hold : forall w k t v, cache w !! k = Some (t, v) ->
            cache_ttl <= clock w - t ->
            _check_cache k w
            = (None, if Nat.ltb 513 (size (cache w)) then set_cache ∅ w
                     else set_cache (delete k (cache w)) w)).
  { intros w0 k t v Hk Hge. unfold _check_cache. rewrite Hk.
    destruct (Z.ltb_spec (clock w0 - t) cache_ttl); [lia|].
    cbn [cache set_cache]. unfold cache_capacity.
    rewrite map_size_delete, Hk.
    pose proof (map_size_ne_0_lookup_2 (cache w0) k ltac:(by rewrite Hk)).
    destruct (Nat.ltb_spec 512 (Nat.pred (size (cache w0))));
      destruct (Nat.ltb_spec 513 (size (cache w0))); try lia; done. }
  assert (Hsize : size (cache w1) = match cache w !! uid with
                                    | Some _ => size (cache w)
                                    | None => S (size (cache w))
                                    end).
  { unfold w1, _add_to_cache. cbn [cache set_cache].
    destruct (cache w !! uid) as [old|] eqn:Hk.
    - by rewrite map_size_insert_Some.
    - by rewrite map_size_insert_None. }
  split; [|split; [exact (Hhit w uid)|split; [exact (Habsent w uid)|
    split; [exact (Hold w uid)|]]]].
  - split; [done|]. split; [apply lookup_insert_eq|].
    split; [by intros k Hk; apply lookup_insert_ne|]. split; [done|].
    intros H512 Hfree. rewrite Hfree, H512 in Hsize.
    split; [done|]. split; [|split].
    + intros k t v now Hk Hlt. by apply (Hhit _ k t v).
    + intros other now Hother. rewrite Habsent by done.
      cbn [cache set_clock]. by rewrite Hsize.
    + intros now Hge.
      rewrite (Hold (set_clock now w1) uid (clock w) r).
      * cbn [cache set_clock]. by rewrite Hsize.
      * apply lookup_insert_eq.
      * done.
  - intros k later. rewrite Habsent by done.
    cbn [cache set_clock set_cache]. by rewrite map_size_empty.
Qed.

Lemma oversized_cache_is_shed_by_a_miss_witness :
  let w := stocked 512 (Some sample_record) in
  let w1 := _add_to_cache (sample_id 512) None w in
  size (cache w1) = 513%nat
  ∧ _check_cache (sample_id 600) (set_clock 7 w1)
    = (None, set_cache ∅ (set_clock 7 w1))
  ∧ _check_cache (sample_id 512) (set_clock (minutes 30) w1)
    = (None, set_cache (delete (sample_id 512) (cache w1))
                       (set_clock (minutes 30) w1)).
Proof.
  intros w w1.
  destruct (oversized_cache_is_shed_by_a_miss w (sample_id 512) None)
    as ((_ & _ & _ & _ & Hfull) & _).
  destruct Hfull as (H513 & _ & Habsent & Hexpired).
  - vm_compute. reflexivity.
  - vm_compute. reflexivity.
  - split; [exact H513|]. split.
    + apply Habsent. vm_compute. reflexivity.
    + apply Hexpired. vm_compute. discriminate.
Defined.

(** C5 as stated fails: after the 513th distinct entry is stored the
    table holds 513 entries, and a key stored before is still found. *)
Lemma storing_does_not_clear :
  let w := stocked 512 (Some sample_record) in
  let w1 := _add_to_cache (sample_id 512) (Some sample_record) w in
  size (cache w) = 512%nat
  ∧ cache w !! sample_id 512 = None
  ∧ size (cache w1) = 513%nat
  ∧ (_check_cache (sample_id 0) (set_clock 1 w1)).1 = Some sample_record
  ∧ size (cache (_check_cache (sample_id 0) (set_clock 1 w1)).2) = 513%nat.
Proof. cbv zeta. repeat split; vm_compute; reflexivity. Qed.


Lemma skip_known_empty user_ids : skip_known ∅ user_ids = user_ids.
Proof.
  unfold skip_known. induction user_ids as [|u us IH]; [done|].
  cbn. rewrite IH. rewrite bool_decide_eq_true_2; [done|set_solver].
Qed.

(** C10.  When 404.txt does not exist or cannot be read, the set loaded
    from it is empty and the filter keeps the whole list, so the run is
    the run of the main loop on the batches of the whole input list: it
    stops early only when the input file gives no identifier, and with
    an identifier in the input its creations and awaits of tasks follow
    the schedule of these batches. *)
Theorem unreadable_ledger_filters_nothing
    fuel server max_concurrent input_file save_empty w :
  read_lines (ledger_file w) = None ->
  let outcome := process_user_ids fuel server max_concurrent input_file
                                  save_empty w in
  _load_404_ids w = ∅
  ∧ (forall user_ids, skip_known (_load_404_ids w) user_ids = user_ids)
  ∧ outcome
    = match read_user_ids input_file with
      | None | Some [] => Done NothingToDo w
      | Some user_ids =>
          match batches user_ids (max_concurrent * 2) with
          | None => Done ValueError w
          | Some todo =>
              match process_batches fuel server save_empty todo
                                    (mkCounters 0 0) w with
              | Stuck w1 => Stuck w1
              | Done totals w1 => Done (Finished totals) w1
              end
          end
      end
  ∧ forall u user_ids, read_user_ids input_file = Some (u :: user_ids) ->
      outcome <> Done NothingToDo w
      ∧ forall todo,
          batches (u :: user_ids) (max_concurrent * 2) = Some todo ->
          exists evs rest,
            trace (final outcome) = trace w ++ evs
            ∧ List.filter is_orchestration evs ++ rest = schedule todo
            ∧ (forall x w', outcome = Done x w' -> rest = []).
Proof.
  intros Hfile outcome.
  assert (Hload : _load_404_ids w = ∅).
  { unfold _load_404_ids. by rewrite Hfile. }
  assert (Hrun : outcome
    = match read_user_ids input_file with
      | None | Some [] => Done NothingToDo w
      | Some user_ids =>
          match batches user_ids (max_concurrent * 2) with
          | None => Done ValueError w
          | Some todo =>
              match process_batches fuel server save_empty todo
                                    (mkCounters 0 0) w with
              | Stuck w1 => Stuck w1
              | Done totals w1 => Done (Finished totals) w1
              end
          end
      end).
  { subst outcome. unfold process_user_ids.
    destruct (read_user_ids input_file) as [[|u user_ids]|]; [done| |done].
    by rewrite Hload, skip_known_empty. }
  rewrite Hload. split; [done|]. split; [apply skip_known_empty|].
  split; [exact Hrun|].
  intros u user_ids Hread. rewrite Hrun, Hread. clear Hrun. split.
  - destruct (batches (u :: user_ids) (max_concurrent * 2)) as [todo|];
      [|done].
    by destruct (process_batches fuel server save_empty todo (mkCounters 0 0) w).
  - intros todo ->.
    destruct (process_batches_trace fuel server save_empty todo
                (mkCounters 0 0) w) as (evs & rest & Htr & _ & Horch & Hdone).
    exists evs, rest.
    destruct (process_batches fuel server save_empty todo (mkCounters 0 0) w)
      as [totals w1|w1]; cbn [final] in *.
    + split; [done|]. split; [done|]. intros _ _ _. by eapply Hdone.
    + split; [done|]. split; [done|]. intros x w' [=].
Qed.

Lemma unreadable_ledger_filters_nothing_witness :
  let w := fresh 0 (mkFile Binary true) ∅ in
  let server := fun (_ : string) (_ : nat) => Response 404 Undecodable in
  _load_404_ids w = ∅
  ∧ skip_known (_load_404_ids w) ["usr_A"; "usr_B"] = ["usr_A"; "usr_B"]
  ∧ process_user_ids 9 server 1 (Lines ["usr_A"; "usr_B"]) false w
    <> Done NothingToDo w.
Proof.
  intros w server.
  destruct (unreadable_ledger_filters_nothing 9 server 1
              (Lines ["usr_A"; "usr_B"]) false w) as (Hload & Hkeep & _ & Hrun).
  - vm_compute. reflexivity.
  - split; [exact Hload|]. split; [exact (Hkeep _)|].
    destruct (Hrun "usr_A" ["usr_B"]) as [Hgoes _].
    + vm_compute. reflexivity.
    + exact Hgoes.
Defined.

(** C4 (amended).  After [request_made] has been called at the instants
    [ts], in the order of the clock, [is_rate_limit_exceeded] at [now] is
    true exactly when at least 15 of those calls are strictly less than
    60 seconds old: it turns false at the instant the 15th most recent
    call is 60 seconds old, not after it.  Dropping the oldest entry past
    40 never changes the answer. *)
Theorem exceeded_iff_fifteen_younger_than_a_minute ts now :
  Sorted Z.le ts ->
  RateLimiter.is_rate_limit_exceeded now
    (RateLimiter.record_all ts RateLimiter.init) = true
  <-> (15 <= length (List.filter (fun t => (now - seconds 60 <? t)%Z) ts))%nat.
Proof.
  intros Hs. destruct (record_all_requests ts) as (HK & HW & Hreq).
  unfold RateLimiter.is_rate_limit_exceeded. rewrite HK, HW, Hreq.
  rewrite count_recent_drop; [|intros a b; lia|done].
  pose proof (length_filter_le (fun t => now - seconds 60 <? t) ts).
  rewrite Z.leb_le. lia.
Qed.

Lemma exceeded_iff_fifteen_younger_than_a_minute_witness :
  RateLimiter.is_rate_limit_exceeded (seconds 60 - 1)
    (RateLimiter.record_all (repeat 0%Z 15) RateLimiter.init) = true
  <-> (15 <= length (List.filter (fun t => (seconds 60 - 1 - seconds 60 <? t)%Z)
                                 (repeat 0%Z 15)))%nat.
Proof.
  apply (exceeded_iff_fifteen_younger_than_a_minute (repeat 0%Z 15) (seconds 60 - 1)).
  cbn. repeat constructor; lia.
Defined.

(** C4 as stated fails at the boundary: 15 calls at instant 0 are, at
    instant 60 s, all inside the trailing 60 seconds and none is more than
    60 seconds old, yet the limit is not reported as exceeded. *)
Lemma not_exceeded_at_exactly_sixty_seconds :
  let ts := repeat 0%Z 15 in
  let now := seconds 60 in
  Forall (fun t => now - seconds 60 <= t <= now) ts
  ∧ length ts = 15%nat
  ∧ RateLimiter.is_rate_limit_exceeded now
      (RateLimiter.record_all ts RateLimiter.init) = false.
Proof.
  cbv zeta. split; [|split; reflexivity].
  apply Forall_repeat. unfold seconds. lia.
Qed.



(** ** Counting the requests of a lookup *)

Lemma new_events_split w w5 w' evs :
  trace w5 = trace w ++ evs ->
  (exists rest, trace w' = trace w5 ++ rest) ->
  new_events w w' = evs ++ new_events w5 w'.
Proof.
  intros H5 [rest H']. rewrite (new_events_app w5 w' rest H').
  apply new_events_app. by rewrite H', H5, <- app_assoc.
Qed.

Lemma count_app p evs1 evs2 :
  count p (evs1 ++ evs2) = (count p evs1 + count p evs2)%nat.
Proof. unfold count. by rewrite List.filter_app, length_app. Qed.

Lemma count_sleeps p d k :
  p (EvSleep d) = false -> count p (repeat (EvSleep d) k) = O.
Proof.
  intros Hp. unfold count. induction k as [|k IH]; [done|].
  cbn. by rewrite Hp.
Qed.

Lemma on_reply_again_cases uid rc r w3 rc' w5 :
  on_reply uid rc r w3 = Again rc' w5 ->
  (is_transport_failure r = true ∧ rc < 3 ∧ rc' = rc + 1)
  \/ (is_transport_failure r = false ∧ rc' = rc
      ∧ (named_status r -> is_throttled r = true)).
Proof.
  unfold on_reply, on_failure. destruct r as [status content| |].
  - destruct (Z.eqb_spec status 200) as [->|Hne].
    { destruct content as [data| | | |];
        [by destruct (is_yoinker data) as [[]|]|done| | |done];
        (destruct (Z.ltb_spec rc 3); [|done]); intros [= <- <-]; by left. }
    assert (Hf : is_transport_failure (Response status content) = false).
    { cbn. destruct content; try done; by apply Z.eqb_neq. }
    destruct (Z.eqb_spec status 404); [done|].
    destruct (Z.eqb_spec status 429) as [->|]; intros [= <- <-]; right;
      (split; [done|]); (split; [done|]); cbn; [done|lia].
  - destruct (Z.ltb_spec rc 3); [|done]. intros [= <- <-]. by left.
  - destruct (Z.ltb_spec rc 3); [|done]. intros [= <- <-]. by left.
Qed.

Lemma on_reply_finish_cases uid rc r w3 o w5 :
  on_reply uid rc r w3 = Finish o w5 ->
  is_transport_failure r = false
  \/ (is_transport_failure r = true ∧ 3 <= rc ∧ o = Returned None).
Proof.
  destruct (is_transport_failure r) eqn:Hf; [|by left].
  unfold on_reply, on_failure. intros Hfin. right. split; [done|].
  destruct r as [status content| |].
  - cbn in Hf. destruct (Z.eqb_spec status 200) as [->|];
      [|by destruct content].
    destruct content; try done;
      (destruct (Z.ltb_spec rc 3); [done|]); by injection Hfin as <- _.
  - destruct (Z.ltb_spec rc 3); [done|]. by injection Hfin as <- _.
  - destruct (Z.ltb_spec rc 3); [done|]. by injection Hfin as <- _.
Qed.

(** The trace of one call that goes to the network, up to and including
    its request. *)
Lemma request_trace server uid w w1 fuel w2 :
  _check_cache uid w = (None, w1) ->
  wait_if_needed fuel w1 = Done tt w2 ->
  exists k,
    trace (session_get server uid w2).2
    = trace w ++ repeat (EvSleep quarter_second) k
              ++ [EvGet uid (server uid (sent w))].
Proof.
  intros Hcache Hgate.
  apply wait_if_needed_done in Hgate as [[k ->] _].
  destruct (gate_fields uid w None w1 k Hcache) as (_ & _ & _ & _ & Hn & _ & Ht).
  exists k. cbn. by rewrite Ht, Hn, <- app_assoc.
Qed.

Lemma count_single p e : count p [e] = if p e then 1%nat else O.
Proof. unfold count. cbn. by destruct (p e). Qed.

(** The trace of a call that is answered by a call of itself. *)
Lemma retry_trace fuel server uid rc w w1 w2 rc' w5 :
  _check_cache uid w = (None, w1) ->
  wait_if_needed fuel w1 = Done tt w2 ->
  on_reply uid rc (server uid (sent w2)) (session_get server uid w2).2
  = Again rc' w5 ->
  sent w2 = sent w
  ∧ exists k d,
      trace w5 = trace w ++ repeat (EvSleep quarter_second) k
                         ++ [EvGet uid (server uid (sent w)); EvSleep d].
Proof.
  intros Hcache Hgate Hreply.
  destruct (request_trace server uid w w1 fuel w2 Hcache Hgate) as [k Hk].
  apply on_reply_again in Hreply as ([d Hd] & _).
  apply wait_if_needed_done in Hgate as [[j ->] _].
  destruct (gate_fields uid w None w1 j Hcache) as (_ & _ & _ & _ & Hn & _).
  split; [done|]. exists k, d. rewrite Hd, Hk, <- !app_assoc. done.
Qed.

Lemma check_user_attempts fuel server uid rc w :
  (forall k, named_status (server uid k)) ->
  Z.of_nat (count is_attempt
              (new_events w (final (check_user fuel server uid rc w))))
  <= Z.max 1 (4 - rc).
Proof.
  intros Hnamed. revert rc w. induction fuel as [|fuel IH]; intros rc w.
  { cbn. unfold new_events. rewrite drop_all. cbn. lia. }
  check_user_cases uid w; cbn [final].
  - apply existing_json_fields in Hsnap as (_ & _ & _ & _ & _ & Ht).
    rewrite (new_events_app w w1 []) by (by rewrite app_nil_r). cbn. lia.
  - apply _check_cache_miss_fields in Hcache as (_ & _ & _ & _ & _ & Ht).
    rewrite (new_events_app w w1 []) by (by rewrite app_nil_r). cbn. lia.
  - destruct (request_trace server uid w w1 fuel w2 Hcache Hgate) as [k Hk].
    apply on_reply_finish in Hreply as (Ht & _).
    rewrite (new_events_app w w5 _ (eq_trans Ht Hk)).
    rewrite count_app, count_sleeps, count_single by done.
    case_match; cbn; lia.
  - destruct (retry_trace fuel server uid rc w w1 w2 rc' w5 Hcache Hgate Hreply)
      as (Hn & k & d & Hd).
    destruct (check_user_trace fuel server uid rc' w5) as (evs & Hevs & _).
    rewrite (new_events_split w w5 _ _ Hd) by eauto.
    rewrite !count_app, count_sleeps by done.
    change [EvGet uid (server uid (sent w)); EvSleep d]
      with ([EvGet uid (server uid (sent w))] ++ [EvSleep d]).
    rewrite count_app, !count_single. cbn [is_attempt].
    specialize (IH rc' w5). rewrite Hn in Hreply.
    apply on_reply_again_cases in Hreply
      as [(Hf & Hlt & ->)|(Hf & -> & Hthr)].
    + destruct (negb _); cbn; lia.
    + rewrite (Hthr (Hnamed _)). cbn. lia.
  - pose proof (wait_if_needed_final fuel w1) as [k Hk]. rewrite Hgate in Hk.
    cbn in Hk. subst w2.
    destruct (gate_fields uid w None w1 k Hcache) as (_ & _ & _ & _ & _ & _ & Ht).
    rewrite (new_events_app _ _ _ Ht), count_sleeps by done. lia.
Qed.


Lemma check_user_exhausted fuel server uid rc w o w' :
  rc <= 3 ->
  check_user fuel server uid rc w = Done o w' ->
  Z.of_nat (count is_failure (new_events w w')) = 4 - rc ->
  o = Returned None.
Proof.
  revert rc w. induction fuel as [|fuel IH]; intros rc w Hrc; [done|].
  check_user_cases uid w.
  - intros [= <- <-].
    apply existing_json_fields in Hsnap as (_ & _ & _ & _ & _ & Ht).
    rewrite (new_events_app w w1 []) by (by rewrite app_nil_r). cbn. lia.
  - intros [= <- <-].
    apply _check_cache_miss_fields in Hcache as (_ & _ & _ & _ & _ & Ht).
    rewrite (new_events_app w w1 []) by (by rewrite app_nil_r). cbn. lia.
  - intros [= <- <-].
    destruct (request_trace server uid w w1 fuel w2 Hcache Hgate) as [k Hk].
    pose proof (on_reply_finish _ _ _ _ _ _ Hreply) as (Ht & _).
    rewrite (new_events_app w w5 _ (eq_trans Ht Hk)).
    rewrite count_app, count_sleeps, count_single by done. cbn [is_failure].
    apply wait_if_needed_done in Hgate as [[j ->] _].
    destruct (gate_fields uid w None w1 j Hcache) as (_ & _ & _ & _ & Hn & _).
    rewrite Hn in Hreply.
    apply on_reply_finish_cases in Hreply as [->|(_ & _ & ->)]; [cbn; lia|done].
  - intros Hrec.
    destruct (retry_trace fuel server uid rc w w1 w2 rc' w5 Hcache Hgate Hreply)
      as (Hn & k & d & Hd).
    destruct (check_user_trace fuel server uid rc' w5) as (evs & Hevs & _).
    rewrite Hrec in Hevs. cbn [final] in Hevs.
    rewrite (new_events_split w w5 _ _ Hd) by eauto.
    rewrite !count_app, count_sleeps by done.
    change [EvGet uid (server uid (sent w)); EvSleep d]
      with ([EvGet uid (server uid (sent w))] ++ [EvSleep d]).
    rewrite count_app, !count_single. cbn [is_failure].
    rewrite Hn in Hreply.
    apply on_reply_again_cases in Hreply
      as [(-> & Hlt & ->)|(-> & -> & _)]; cbv beta iota; intros Hcount;
      (eapply IH; [|exact Hrec|]; lia).
  - done.
Qed.

Lemma check_user_more_fuel fuel server uid rc w o w' :
  check_user fuel server uid rc w = Done o w' ->
  forall fuel', (fuel <= fuel')%nat ->
    check_user fuel' server uid rc w = Done o w'.
Proof.
  revert rc w. induction fuel as [|fuel IH]; intros rc w; [done|].
  intros Hrun [|fuel'] Hle; [lia|]. revert Hrun.
  assert (Hwait : forall w1 w2, wait_if_needed fuel w1 = Done tt w2 ->
            wait_if_needed fuel' w1 = Done tt w2).
  { assert (Hle' : (fuel <= fuel')%nat) by lia. clear -Hle'.
    revert fuel' Hle'. induction fuel as [|fuel IHf]; intros fuel' Hle' w1 w2.
    - cbn. destruct (is_rate_limit_exceeded w1) eqn:E; [done|].
      intros [= <-]. destruct fuel'; cbn; by rewrite E.
    - destruct fuel' as [|fuel']; [lia|]. cbn.
      destruct (is_rate_limit_exceeded w1); [|done].
      apply IHf. lia. }
  cbn [check_user].
  destruct (existing_json uid w) as [[r w1]|]; [done|].
  destruct (_check_cache uid w) as [[r|] w1]; [done|].
  destruct (wait_if_needed fuel w1) as [[] w2|w2] eqn:Hgate; [|done].
  rewrite (Hwait _ _ Hgate).
  destruct (session_get server uid w2) as [r w3].
  destruct (on_reply uid rc r w3) as [o5 w5|rc' w5]; [done|].
  intros Hrec. apply (IH _ _ Hrec). lia.
Qed.

Lemma on_reply_quota uid rc r w3 rc' w5 :
  on_reply uid rc r w3 = Again rc' w5 ->
  quota_positive w3 -> quota_positive w5.
Proof.
  intros Hreply. unfold quota_positive.
  by apply on_reply_again in Hreply as (_ & _ & _ & ->).
Qed.

Lemma check_user_returns server uid :
  (forall k, named_status (server uid k)) ->
  (forall k, is_throttled (server uid k) = false) ->
  forall (m : nat) rc w,
    3 - rc <= Z.of_nat m -> quota_positive w ->
    exists n o w', check_user n server uid rc w = Done o w'.
Proof.
  intros Hnamed Hfree. induction m as [|m IH]; intros rc w Hm Hq.
  - destruct (existing_json uid w) as [[r w1]|] eqn:Hsnap.
    { exists 1%nat. cbn. rewrite Hsnap. eauto. }
    destruct (_check_cache uid w) as [[r|] w1] eqn:Hcache.
    { exists 1%nat. cbn. rewrite Hsnap, Hcache. eauto. }
    pose proof (_check_cache_quota uid w Hq) as Hq1. rewrite Hcache in Hq1.
    destruct (wait_if_needed_settles w1 Hq1) as (k & _ & Hgate).
    specialize (Hgate k (le_n k)).
    exists (S k).
    rewrite (check_user_request k server uid rc w w1 _ Hsnap Hcache Hgate).
    destruct (on_reply _ _ _ _) as [o w5|rc' w5] eqn:Hreply; [eauto|].
    apply on_reply_again_cases in Hreply
      as [(_ & Hlt & _)|(_ & _ & Hthr)]; [lia|].
    rewrite Hfree in Hthr. by specialize (Hthr (Hnamed _)).
  - destruct (existing_json uid w) as [[r w1]|] eqn:Hsnap.
    { exists 1%nat. cbn. rewrite Hsnap. eauto. }
    destruct (_check_cache uid w) as [[r|] w1] eqn:Hcache.
    { exists 1%nat. cbn. rewrite Hsnap, Hcache. eauto. }
    pose proof (_check_cache_quota uid w Hq) as Hq1. rewrite Hcache in Hq1.
    destruct (wait_if_needed_settles w1 Hq1) as (k & _ & Hgate).
    destruct (on_reply uid rc (server uid (sent w))
                (session_get server uid (settle k w1)).2)
      as [o w5|rc' w5] eqn:Hreply.
    + exists (S k).
      rewrite (check_user_request k server uid rc w w1 _ Hsnap Hcache
                 (Hgate k (le_n k))), Hreply. eauto.
    + pose proof (on_reply_quota _ _ _ _ _ _ Hreply) as Hq5.
      pose proof (on_reply_again_cases _ _ _ _ _ _ Hreply)
        as [(_ & Hlt & ->)|(_ & _ & Hthr)].
      2:{ rewrite Hfree in Hthr. by specialize (Hthr (Hnamed _)). }
      destruct (IH (rc + 1) w5) as (n & o & w' & Hrun); [lia| |].
      { apply Hq5. unfold quota_positive. cbn.
        by destruct (settle_fields k w1) as (-> & _). }
      exists (S (Nat.max k n)), o, w'.
      rewrite (check_user_request (Nat.max k n) server uid rc w w1 _ Hsnap Hcache
                 (Hgate _ (Nat.le_max_l k n))), Hreply.
      apply (check_user_more_fuel _ _ _ _ _ _ _ Hrun). lia.
Qed.


(** C3 (amended).  The handlers of a timeout and of a client error
    take the requests that fail and the 200 replies whose body cannot be
    fetched (a content-type error, a timeout while reading): the lookup
    is retried after a sleep of one second, with the retry count one
    higher, while the count is below 3, and ends with None otherwise.
    So, as long as the server answers with no status other than 200, 404
    and 429, a lookup sends at most 4 requests that are not answered 429,
    however long it runs; a lookup that has seen 4 such failures returns
    None; and when no reply is a 429 the lookup returns.  A 200 reply
    whose body is not valid JSON ends the lookup with None at once: one
    request, no sleep of a second, no retry. *)
Theorem transport_failures_have_a_budget server uid w :
  (forall k, named_status (server uid k)) ->
  (forall r, is_transport_failure r = true
     <-> r = TimeoutError \/ r = ClientError
         \/ r = Response 200 Unavailable \/ r = Response 200 Overdue)
  ∧ (forall rc r w3, is_transport_failure r = true ->
     on_reply uid rc r w3
     = if rc <? 3 then Again (rc + 1) (sleep (seconds 1) (received r w3))
       else Finish (Returned None) (received r w3))
  ∧ (forall fuel,
       (count is_attempt
          (new_events w (final (check_user fuel server uid 0 w))) <= 4)%nat)
  ∧ (forall fuel o w',
       check_user fuel server uid 0 w = Done o w' ->
       count is_failure (new_events w w') = 4%nat -> o = Returned None)
  ∧ (quota_positive w -> (forall k, is_throttled (server uid k) = false) ->
     exists n, forall fuel, (n <= fuel)%nat ->
       exists o w', check_user fuel server uid 0 w = Done o w')
  ∧ (quota_positive w -> existing_json uid w = None ->
     (_check_cache uid w).1 = None ->
     server uid (sent w) = Response 200 Undecodable ->
     exists k, forall fuel, (k < fuel)%nat ->
       exists w',
         check_user fuel server uid 0 w = Done (Returned None) w'
         ∧ new_events w w'
           = repeat (EvSleep quarter_second) k
             ++ [EvGet uid (Response 200 Undecodable)]).
Proof.
  intros Hnamed. split.
  { intros r. split.
    - destruct r as [status [data| | | |]| |]; cbn; try done; try tauto;
        intros ->%Z.eqb_eq; tauto.
    - by intros [->|[->|[->| ->]]]. }
  split.
  { intros rc r w3 Hr. destruct r as [status content| |]; [|done..].
    cbn in Hr. unfold on_reply, on_failure, received.
    destruct content; try done; by rewrite Hr. }
  split.
  { intros fuel. pose proof (check_user_attempts fuel server uid 0 w Hnamed).
    lia. }
  split.
  { intros fuel o w' Hrun Hcount.
    apply (check_user_exhausted fuel server uid 0 w o w'); [lia|done|lia]. }
  split.
  { intros Hq Hfree.
    destruct (check_user_returns server uid Hnamed Hfree 3 0 w ltac:(lia) Hq)
      as (n & o & w' & Hrun).
    exists n. intros fuel Hfuel. exists o, w'.
    by apply (check_user_more_fuel n). }
  intros Hq Hsnap Hmiss Hrep.
  destruct (_check_cache uid w) as [r w1] eqn:Hcache. cbn in Hmiss. subst r.
  pose proof (_check_cache_quota uid w Hq) as Hq1. rewrite Hcache in Hq1.
  destruct (wait_if_needed_settles w1 Hq1) as (k & _ & Hgate).
  destruct (gate_fields uid w None w1 k Hcache) as (_ & _ & _ & _ & Hn & _ & Ht).
  exists k. intros [|fuel] Hfuel; [lia|].
  rewrite (check_user_request fuel server uid 0 w w1 (settle k w1) Hsnap Hcache)
    by (apply Hgate; lia).
  rewrite Hrep. cbn [on_reply Z.eqb Pos.eqb]. eexists. split; [done|].
  apply new_events_app. cbn. by rewrite Ht, Hn, Hrep, <- app_assoc.
Qed.

Lemma transport_failures_have_a_budget_witness :
  let server := fun (_ : string) (k : nat) =>
    if Nat.even k then Response 200 Unavailable else TimeoutError in
  let w := fresh 0 Missing ∅ in
  (count is_attempt
     (new_events w (final (check_user 20 server "usr_A" 0 w))) <= 4)%nat
  ∧ (count is_failure
       (new_events w (final (check_user 20 server "usr_A" 0 w))) = 4%nat ->
     check_user 20 server "usr_A" 0 w
     = Done (Returned None) (final (check_user 20 server "usr_A" 0 w))).
Proof.
  intros server w.
  destruct (transport_failures_have_a_budget server "usr_A" w)
    as (_ & _ & Hbudget & Hspent & _).
  - intros k. unfold server. destruct (Nat.even k); cbn; tauto.
  - split; [exact (Hbudget 20%nat)|].
    destruct (check_user 20 server "usr_A" 0 w) as [o w'|w'] eqn:Hrun;
      [|vm_compute in Hrun; discriminate Hrun].
    intros Hcount. cbn [final] in *. by rewrite (Hspent 20%nat o w' Hrun Hcount).
Defined.

(** C3 as stated fails twice.  A server that answers 500 is asked again
    with the retry count unchanged: ten units of fuel give ten requests,
    none answered 429, and the lookup is still running.  A 200 reply with
    an undecodable body is not retried: the lookup returns None after one
    request and no sleep. *)
Lemma other_statuses_are_retried_without_budget :
  let w := fresh 0 Missing ∅ in
  let busy := check_user 10 (fun _ _ => Response 500 Undecodable) "usr_A" 0 w in
  let garbled := check_user 10 (fun _ _ => Response 200 Undecodable) "usr_A" 0 w in
  count is_attempt (new_events w (final busy)) = 10%nat
  ∧ (exists w', busy = Stuck w')
  ∧ (exists w', garbled = Done (Returned None) w')
  ∧ new_events w (final garbled) = [EvGet "usr_A" (Response 200 Undecodable)].
Proof.
  cbv zeta. split; [vm_compute; reflexivity|].
  split; [eexists; vm_compute; reflexivity|].
  split; [eexists; vm_compute; reflexivity|].
  vm_compute; reflexivity.
Qed.

(** * Further properties of the detector *)

(** ** The window of the rate limiter *)

(** The list of [request_made] never grows past 40 entries and always
    holds the most recent calls. *)
Theorem request_window_keeps_the_latest_forty ts :
  let rl := RateLimiter.record_all ts RateLimiter.init in
  RateLimiter.requests rl = drop (length ts - 40)%nat ts
  ∧ length (RateLimiter.requests rl) = Nat.min (length ts) 40
  ∧ (forall t, last ts = Some t -> last (RateLimiter.requests rl) = Some t).
Proof.
  cbv zeta. destruct (record_all_requests ts) as (_ & _ & Hreq).
  rewrite Hreq. split; [done|]. split; [rewrite length_drop; lia|].
  intros t Hlast. destruct ts as [|t0 ts' _] using rev_ind; [done|].
  rewrite last_snoc in Hlast. injection Hlast as ->.
  rewrite drop_app_le by (rewrite length_app; cbn; lia).
  apply last_snoc.
Qed.

Lemma recent_later_le (cutoff cutoff' : Z) (instants : list Z) :
  cutoff <= cutoff' ->
  (length (List.filter (fun req => Z.ltb cutoff' req) instants)
   <= length (List.filter (fun req => Z.ltb cutoff req) instants))%nat.
Proof.
  intros Hle. induction instants as [|x xs IH]; [done|]. cbn.
  destruct (Z.ltb_spec cutoff' x), (Z.ltb_spec cutoff x); cbn; lia.
Qed.

(** Time alone never makes the limit exceeded: when it is exceeded at
    some instant, it was exceeded at every earlier instant with the same
    recorded requests. *)
Theorem exceeded_only_fades now now' rl :
  now <= now' ->
  RateLimiter.is_rate_limit_exceeded now' rl = true ->
  RateLimiter.is_rate_limit_exceeded now rl = true.
Proof.
  unfold RateLimiter.is_rate_limit_exceeded. intros Hle Hex.
  apply Z.leb_le in Hex. apply Z.leb_le.
  pose proof (recent_later_le
    (now - seconds (RateLimiter.time_frame_seconds rl))
    (now' - seconds (RateLimiter.time_frame_seconds rl))
    (RateLimiter.requests rl) ltac:(lia)).
  lia.
Qed.

Lemma exceeded_only_fades_witness :
  RateLimiter.is_rate_limit_exceeded 0
    (RateLimiter.record_all (repeat 0%Z 15) RateLimiter.init) = true.
Proof.
  apply (exceeded_only_fades 0 5
           (RateLimiter.record_all (repeat 0%Z 15) RateLimiter.init)).
  - lia.
  - reflexivity.
Defined.

Lemma exceeded_needs_a_recent_request now rl hi :
  0 < RateLimiter.max_requests rl ->
  Forall (fun t => t <= hi) (RateLimiter.requests rl) ->
  RateLimiter.is_rate_limit_exceeded now rl = true ->
  now - seconds (RateLimiter.time_frame_seconds rl) < hi.
Proof.
  unfold RateLimiter.is_rate_limit_exceeded. intros HK Hall Hex.
  apply Z.leb_le in Hex.
  destruct (List.filter _ (RateLimiter.requests rl)) as [|x xs] eqn:E.
  - cbn in Hex. lia.
  - assert (Hin : In x (List.filter
        (fun req => now - seconds (RateLimiter.time_frame_seconds rl) <? req)
        (RateLimiter.requests rl))) by (rewrite E; by left).
    apply filter_In in Hin as [Hin Hlt]. apply Z.ltb_lt in Hlt.
    rewrite Forall_forall in Hall. apply list_elem_of_In, Hall in Hin. lia.
Qed.

Lemma wait_if_needed_bounded (b : nat) w hi :
  quota_positive w ->
  Forall (fun t => t <= hi) (RateLimiter.requests (rate_limiter w)) ->
  hi + seconds (RateLimiter.time_frame_seconds (rate_limiter w)) - clock w
  <= Z.of_nat b * quarter_second ->
  exists k, (k <= b)%nat
    ∧ is_rate_limit_exceeded (settle k w) = false
    ∧ forall fuel, (k <= fuel)%nat -> wait_if_needed fuel w = Done tt (settle k w).
Proof.
  revert w. induction b as [|b IH]; intros w HK Hall Hle.
  - exists O. assert (Hno : is_rate_limit_exceeded w = false).
    { destruct (is_rate_limit_exceeded w) eqn:E; [|done].
      apply (exceeded_needs_a_recent_request _ _ hi) in E; [lia|done..]. }
    split; [lia|]. split; [done|].
    intros fuel _. destruct fuel; cbn; by rewrite Hno.
  - destruct (is_rate_limit_exceeded w) eqn:E.
    + destruct (IH (sleep quarter_second w)) as (k & Hk & Hopen & Hrun);
        [done|done|cbn; lia|].
      exists (S k). split; [lia|]. split; [done|].
      intros [|fuel] Hf; [lia|]. cbn. rewrite E. apply Hrun. lia.
    + exists O. split; [lia|]. split; [done|].
      intros fuel _. destruct fuel; cbn; by rewrite E.
Qed.

(** With a window of 60 seconds and no recorded request in the future,
    [wait_if_needed] returns after at most 240 polls of a quarter of a
    second, the limit is not exceeded when it returns, and nothing but the
    clock and the trace has changed. *)
Theorem rate_gate_opens_within_a_minute w :
  quota_positive w ->
  RateLimiter.time_frame_seconds (rate_limiter w) = 60 ->
  Forall (fun t => t <= clock w) (RateLimiter.requests (rate_limiter w)) ->
  exists k, (k <= 240)%nat
    ∧ forall fuel, (k <= fuel)%nat ->
        exists w',
          wait_if_needed fuel w = Done tt w'
          ∧ is_rate_limit_exceeded w' = false
          ∧ clock w' = clock w + Z.of_nat k * quarter_second
          ∧ trace w' = trace w ++ repeat (EvSleep quarter_second) k
          ∧ rate_limiter w' = rate_limiter w ∧ cache w' = cache w
          ∧ ledger_file w' = ledger_file w
          ∧ snapshot_files w' = snapshot_files w ∧ sent w' = sent w.
Proof.
  intros HK HW Hpast.
  destruct (wait_if_needed_bounded 240 w (clock w) HK Hpast)
    as (k & Hk & Hopen & Hrun).
  { rewrite HW. unfold seconds, quarter_second. lia. }
  exists k. split; [done|]. intros fuel Hfuel. exists (settle k w).
  destruct (settle_fields k w) as (? & ? & ? & ? & ? & ? & ?).
  split; [by apply Hrun|]. done.
Qed.

Lemma rate_gate_opens_within_a_minute_witness :
  let w := set_rate_limiter
             (RateLimiter.record_all (repeat 0%Z 15) RateLimiter.init)
             (fresh 0 Missing ∅) in
  exists k, (k <= 240)%nat
    ∧ exists w', wait_if_needed 240 w = Done tt w'
                 ∧ is_rate_limit_exceeded w' = false.
Proof.
  intros w.
  destruct (rate_gate_opens_within_a_minute w) as (k & Hk & Hrun).
  - unfold quota_positive. vm_compute. reflexivity.
  - vm_compute. reflexivity.
  - vm_compute. repeat (apply List.Forall_cons; [discriminate|]). apply List.Forall_nil.
  - exists k. split; [exact Hk|].
    destruct (Hrun 240%nat Hk) as (w' & H1 & H2 & _).
    exists w'. split; [exact H1|exact H2].
Defined.

(** ** [str.strip] *)

(** Case analysis on the test of white space the goal branches on. *)
Ltac case_space E :=
  match goal with
  | |- context [if (if ?m then ?x else ?y) then _ else _] =>
      destruct (if m then x else y) eqn:E
  | |- context [(if ?m then ?x else ?y) || _] =>
      destruct (if m then x else y) eqn:E
  end.

Lemma string_length_ind (P : string -> Prop) :
  (forall s, (forall t, (String.length t < String.length s)%nat -> P t) -> P s) ->
  forall s, P s.
Proof.
  intros Hstep s. remember (String.length s) as n eqn:Hn.
  revert s Hn. induction n as [n IH] using lt_wf_ind. intros s ->.
  apply Hstep. intros t Hlt. by apply (IH _ Hlt).
Qed.

Lemma lstrip_from_length m s :
  (String.length (lstrip_from m s) <= String.length s)%nat.
Proof.
  induction s as [s IH] using string_length_ind.
  destruct s as [|a r1]; [done|]. cbn [lstrip_from].
  destruct (space1 _); [etrans; [apply IH|]; cbn; lia|].
  destruct r1 as [|b r2]; [done|].
  case_space E2; [etrans; [apply IH|]; cbn; lia|].
  destruct r2 as [|c r3]; [done|].
  case_space E3; [etrans; [apply IH|]; cbn; lia|done].
Qed.

Lemma lstrip_from_fixed m s :
  lstrip_from m s = s <-> begins_with_space m s = false.
Proof.
  destruct s as [|a r1]; [done|]. cbn [lstrip_from begins_with_space].
  destruct (space1 _).
  { split; [|done]. intros H. pose proof (lstrip_from_length m r1) as Hlen.
    rewrite H in Hlen. cbn in Hlen. lia. }
  destruct r1 as [|b r2]; [done|].
  case_space E2.
  { split; [|done]. intros H. pose proof (lstrip_from_length m r2) as Hlen.
    rewrite H in Hlen. cbn in Hlen. lia. }
  destruct r2 as [|c r3]; [done|].
  case_space E3; [|done].
  split; [|done]. intros H. pose proof (lstrip_from_length m r3) as Hlen.
  rewrite H in Hlen. cbn in Hlen. lia.
Qed.

Lemma lstrip_from_idempotent m s :
  lstrip_from m (lstrip_from m s) = lstrip_from m s.
Proof.
  induction s as [s IH] using string_length_ind.
  destruct s as [|a r1]; [done|]. cbn [lstrip_from].
  destruct (space1 _) eqn:E1; [apply IH; cbn; lia|].
  destruct r1 as [|b r2]. { cbn [lstrip_from]. by rewrite E1. }
  case_space E2; [apply IH; cbn; lia|].
  destruct r2 as [|c r3]. { cbn [lstrip_from]. by rewrite E1, E2. }
  case_space E3; [apply IH; cbn; lia|].
  cbn [lstrip_from]. by rewrite E1, E2, E3.
Qed.

Lemma app_cons c s t :
  String.append (String c s) t = String c (String.append s t).
Proof. reflexivity. Qed.

Lemma app_empty_r s : String.append s "" = s.
Proof. induction s as [|c s IH]; [done|]. by rewrite app_cons, IH. Qed.

Lemma string_app_assoc s t u :
  String.append (String.append s t) u = String.append s (String.append t u).
Proof.
  induction s as [|c s IH]; [done|]. by rewrite !app_cons, IH.
Qed.

Lemma lstrip_from_suffix m s :
  exists p, s = String.append p (lstrip_from m s).
Proof.
  induction s as [s IH] using string_length_ind.
  destruct s as [|a r1]; [by exists ""|]. cbn [lstrip_from].
  destruct (space1 _).
  { destruct (IH r1) as [p Hp]; [cbn; lia|].
    exists (String a p). by rewrite app_cons, <- Hp. }
  destruct r1 as [|b r2]; [by exists ""|].
  case_space E2.
  { destruct (IH r2) as [p Hp]; [cbn; lia|].
    exists (String a (String b p)). by rewrite !app_cons, <- Hp. }
  destruct r2 as [|c r3]; [by exists ""|].
  case_space E3; [|by exists ""].
  destruct (IH r3) as [p Hp]; [cbn; lia|].
  exists (String a (String b (String c p))). by rewrite !app_cons, <- Hp.
Qed.

(** A string that does not begin with white space has no prefix that
    does. *)
Lemma begins_with_space_prefix m t u :
  begins_with_space m (String.append t u) = false ->
  begins_with_space m t = false.
Proof.
  destruct t as [|a [|b [|c r3]]]; [done| | |by rewrite !app_cons].
  - rewrite app_cons. cbn [begins_with_space].
    destruct (space1 _); [done|]. done.
  - rewrite !app_cons. cbn [begins_with_space].
    destruct (space1 _); [done|]. cbn [orb]. by case_space E2.
Qed.

Lemma rev_app_append s acc :
  String.rev_app s acc = String.append (String.rev s) acc.
Proof.
  unfold String.rev. revert acc. induction s as [|c s IH]; intros acc; [done|].
  cbn [String.rev_app]. rewrite IH, (IH (String c "")).
  by rewrite string_app_assoc.
Qed.

Lemma rev_cons c s :
  String.rev (String c s) = String.append (String.rev s) (String c "").
Proof. unfold String.rev at 1. cbn [String.rev_app]. apply rev_app_append. Qed.

Lemma rev_snoc s c :
  String.rev (String.append s (String c "")) = String c (String.rev s).
Proof.
  induction s as [|d s IH]; [done|].
  by rewrite app_cons, !rev_cons, IH.
Qed.

Lemma rev_involutive s : String.rev (String.rev s) = s.
Proof.
  induction s as [|c s IH]; [done|]. by rewrite rev_cons, rev_snoc, IH.
Qed.

Lemma rev_app s t :
  String.rev (String.append s t)
  = String.append (String.rev t) (String.rev s).
Proof.
  induction s as [|c s IH].
  - change (String.rev "") with "". by rewrite app_empty_r.
  - by rewrite app_cons, !rev_cons, IH, string_app_assoc.
Qed.

(** [strip] is idempotent, and what it returns neither starts nor ends
    with white space. *)
Lemma strip_is_idempotent s :
  strip (strip s) = strip s
  ∧ begins_with_space false (strip s) = false
  ∧ begins_with_space true (String.rev (strip s)) = false.
Proof.
  unfold strip, rstrip, lstrip.
  set (t := lstrip_from false s).
  set (y := lstrip_from true (String.rev t)).
  assert (Hy : lstrip_from true y = y) by apply lstrip_from_idempotent.
  assert (Ht : begins_with_space false t = false)
    by apply lstrip_from_fixed, lstrip_from_idempotent.
  destruct (lstrip_from_suffix true (String.rev t)) as [p Hp]. fold y in Hp.
  assert (Hpre : t = String.append (String.rev y) (String.rev p)).
  { by rewrite <- rev_app, <- Hp, rev_involutive. }
  assert (Hl : begins_with_space false (String.rev y) = false).
  { apply (begins_with_space_prefix false _ (String.rev p)). by rewrite <- Hpre. }
  split; [|split].
  - apply lstrip_from_fixed in Hl. by rewrite Hl, rev_involutive, Hy.
  - done.
  - rewrite rev_involutive. by apply lstrip_from_fixed.
Qed.

(** The identifiers read from a file are not empty and are left alone by
    [strip], so reading them again from a list of lines gives the same
    list. *)
Theorem stripped_lines_are_canonical ls :
  Forall (fun uid => uid <> "" ∧ strip uid = uid) (stripped_lines ls)
  ∧ stripped_lines (stripped_lines ls) = stripped_lines ls.
Proof.
  assert (Hall : Forall (fun uid => uid <> "" ∧ strip uid = uid)
                        (stripped_lines ls)).
  { unfold stripped_lines. induction ls as [|l ls IH]; [done|]. cbn.
    destruct (String.eqb_spec (strip l) ""); cbn; [done|].
    constructor; [|done]. split; [done|]. apply strip_is_idempotent. }
  split; [done|].
  induction Hall as [|uid uids [Hne Hfix] _ IH]; [done|].
  unfold stripped_lines in *. cbn. rewrite Hfix.
  destruct (String.eqb_spec uid ""); [done|]. cbn. by rewrite IH.
Qed.

(** ** 404.txt *)

Lemma stripped_lines_snoc ls line :
  stripped_lines (ls ++ [line])
  = stripped_lines ls ++ (if String.eqb (strip line) "" then [] else [strip line]).
Proof.
  unfold stripped_lines. rewrite map_app, List.filter_app. cbn.
  by destruct (String.eqb (strip line) "").
Qed.

Lemma ends_line_inv s :
  ends_line s = true ->
  s = "" \/ exists p, s = String.append p (String LF "").
Proof.
  induction s as [|c s IH]; [by left|]. cbn [ends_line]. intros H. right.
  destruct s as [|d s'].
  - apply Ascii.eqb_eq in H as ->. by exists "".
  - destruct (IH H) as [|[p Hp]]; [done|].
    exists (String c p). by rewrite app_cons, <- Hp.
Qed.

Lemma translate_newlines_line f p b :
  translate_newlines f (String.append p (String LF b))
  = String.append (translate_newlines f (String.append p (String LF "")))
                  (translate_newlines false b).
Proof.
  revert f. induction p as [|c p IH]; intros f.
  - change (String.append "" ?x) with x. cbn [translate_newlines].
    change (Ascii.eqb LF CR) with false. rewrite Ascii.eqb_refl.
    by destruct f.
  - rewrite !app_cons. cbn [translate_newlines].
    destruct (Ascii.eqb c CR); [by rewrite IH|].
    destruct (Ascii.eqb c LF && f); by rewrite IH.
Qed.

Lemma translate_newlines_ends f p :
  f = false \/ p <> "" ->
  exists q, translate_newlines f (String.append p (String LF ""))
            = String.append q (String LF "").
Proof.
  revert f. induction p as [|c p IH]; intros f Hf.
  - destruct Hf as [->|]; [|done]. by exists "".
  - rewrite app_cons. cbn [translate_newlines].
    destruct (Ascii.eqb c CR).
    { destruct p as [|d p'].
      - by exists "".
      - destruct (IH true) as [q Hq]; [by right|].
        exists (String LF q). by rewrite Hq. }
    destruct (Ascii.eqb c LF && f).
    + destruct (IH false) as [q Hq]; [by left|]. by exists q.
    + destruct (IH false) as [q Hq]; [by left|].
      exists (String c q). by rewrite Hq.
Qed.

Lemma translate_newlines_plain u :
  has_newline u = false ->
  translate_newlines false (String.append u (String LF ""))
  = String.append u (String LF "").
Proof.
  induction u as [|c u IH]; [done|]. cbn [has_newline].
  intros [[Hlf Hcr]%orb_false_elim Hu]%orb_false_elim.
  rewrite app_cons. cbn [translate_newlines].
  by rewrite Hcr, Hlf, (IH Hu).
Qed.

Lemma split_lines_nonempty c s : split_lines (String c s) <> [].
Proof. cbn [split_lines]. by repeat case_match. Qed.

Lemma split_lines_line q b :
  split_lines (String.append q (String LF b))
  = split_lines (String.append q (String LF "")) ++ split_lines b.
Proof.
  induction q as [|c q IH]; [done|].
  rewrite !app_cons. cbn [split_lines].
  destruct (Ascii.eqb c LF); [by rewrite IH|].
  rewrite IH.
  destruct (split_lines (String.append q (String LF ""))) as [|l ls] eqn:E;
    [|done].
  destruct q; by apply split_lines_nonempty in E.
Qed.

Lemma split_lines_plain u :
  has_newline u = false ->
  split_lines (String.append u (String LF "")) = [u].
Proof.
  induction u as [|c u IH]; [done|]. cbn [has_newline].
  intros [[Hlf _]%orb_false_elim Hu]%orb_false_elim.
  rewrite app_cons. cbn [split_lines]. by rewrite Hlf, (IH Hu).
Qed.

(** After a text of complete lines, an identifier and its line feed read
    as one more line. *)
Lemma appended_line_is_read chars uid :
  ends_line chars = true ->
  has_newline uid = false ->
  split_lines (universal_newlines
                 (String.append chars (String.append uid (String LF ""))))
  = split_lines (universal_newlines chars) ++ [uid].
Proof.
  intros Hends Huid. unfold universal_newlines.
  destruct (ends_line_inv chars Hends) as [->|[p ->]].
  - change (String.append "" ?x) with x.
    by rewrite translate_newlines_plain, split_lines_plain.
  - rewrite string_app_assoc, app_cons.
    change (String.append "" ?x) with x.
    rewrite translate_newlines_line, (translate_newlines_plain uid) by done.
    destruct (translate_newlines_ends false p) as [q ->]; [by left|].
    rewrite string_app_assoc, app_cons.
    change (String.append "" ?x) with x.
    by rewrite split_lines_line, (split_lines_plain uid).
Qed.

Lemma saved_line_is_loaded uid w :
  keeps_lines (ledger_file w) = true ->
  has_newline uid = false ->
  _load_404_ids (_save_to_404_file uid w)
  = (if String.eqb (strip uid) "" then ∅ else {[strip uid]})
    ∪ _load_404_ids w.
Proof.
  unfold keeps_lines, _load_404_ids, _save_to_404_file, append_line, read_lines.
  cbn [ledger_file set_ledger_file].
  intros [Happ Hkeeps]%andb_true_iff Huid. rewrite Happ.
  destruct (stored (ledger_file w)) as [| |chars]; [|done|]; cbn [stored].
  - pose proof (appended_line_is_read "" uid eq_refl Huid) as Hread.
    change (String.append "" ?x) with x in Hread. rewrite Hread.
    change (split_lines (universal_newlines "")) with (@nil string).
    rewrite stripped_lines_snoc.
    destruct (String.eqb (strip uid) ""); cbn; set_solver.
  - rewrite appended_line_is_read by done.
    rewrite stripped_lines_snoc, list_to_set_app_L.
    destruct (String.eqb (strip uid) ""); cbn; set_solver.
Qed.

Lemma saved_identifier_is_loaded uid w :
  keeps_lines (ledger_file w) = true ->
  is_identifier uid ->
  uid ∈ _load_404_ids (_save_to_404_file uid w)
  ∧ keeps_lines (ledger_file (_save_to_404_file uid w)) = true.
Proof.
  intros Hkeeps (Hline & Hfix & Hne). split.
  - rewrite saved_line_is_loaded, Hfix by done.
    destruct (String.eqb_spec uid ""); [done|set_solver].
  - revert Hkeeps. unfold keeps_lines, _save_to_404_file, append_line.
    cbn [ledger_file set_ledger_file].
    intros [Happ Hk]%andb_true_iff. rewrite Happ.
    assert (Hends : forall s, ends_line (String.append s
                      (String.append uid (String LF ""))) = true).
    { intros s. rewrite <- string_app_assoc.
      generalize (String.append s uid). clear. intros s.
      induction s as [|c s IH]; [done|]. rewrite app_cons.
      cbn [ends_line]. destruct s as [|d s']; [done|].
      by rewrite app_cons in *. }
    destruct (stored (ledger_file w)) as [| |chars]; [|done|];
      cbn [appendable stored andb].
    + apply (Hends "").
    + apply Hends.
Qed.

(** Reading 404.txt after [_save_to_404_file] gives the set read before
    plus the identifier as [strip] leaves it, unless that is empty, when
    the file could be appended to and was missing or held complete lines
    and the identifier holds no line break.  A ledger that cannot be
    opened for appending stays as it is; one that cannot be read cannot
    be read afterwards either. *)
Theorem ledger_round_trip uid w :
  (keeps_lines (ledger_file w) = true -> has_newline uid = false ->
   _load_404_ids (_save_to_404_file uid w)
   = (if String.eqb (strip uid) "" then ∅ else {[strip uid]})
     ∪ _load_404_ids w)
  ∧ (forall chars,
       ledger_file w = mkFile (Text chars) true ->
       ledger_file (_save_to_404_file uid w)
       = mkFile (Text (String.append chars
                         (String.append uid (String LF "")))) true)
  ∧ (appendable (ledger_file w) = false -> _save_to_404_file uid w = w)
  ∧ (stored (ledger_file w) = Binary ->
     _load_404_ids (_save_to_404_file uid w) = ∅).
Proof.
  split; [apply saved_line_is_loaded|]. split; [|split].
  - intros chars Hfile. unfold _save_to_404_file. cbn. by rewrite Hfile.
  - intros Happ. unfold _save_to_404_file, append_line. rewrite Happ.
    by destruct w.
  - intros Hbin. unfold _load_404_ids, _save_to_404_file, append_line, read_lines.
    cbn [ledger_file set_ledger_file]. rewrite Hbin.
    destruct (appendable (ledger_file w)); by rewrite Hbin.
Qed.

Lemma ledger_round_trip_witness :
  let w := fresh 0 (Lines ["usr_A"]) ∅ in
  _load_404_ids (_save_to_404_file "usr_B" w)
  = {[ "usr_B" ]} ∪ _load_404_ids w.
Proof.
  intros w.
  destruct (ledger_round_trip "usr_B" w) as [Hload _].
  apply Hload; reflexivity.
Defined.

(** ** What a lookup leaves behind *)

Lemma on_reply_again_store uid rc r w3 rc' w5 :
  on_reply uid rc r w3 = Again rc' w5 ->
  cache w5 = cache w3 ∧ ledger_file w5 = ledger_file w3.
Proof.
  unfold on_reply, on_failure.
  repeat case_match; try done; by intros [= <- <-].
Qed.

Lemma on_reply_finish_store uid rc r w3 o w5 :
  on_reply uid rc r w3 = Finish o w5 ->
  (forall k, k <> uid -> cache w5 !! k = cache w3 !! k)
  ∧ (ledger_file w5 = ledger_file w3
     \/ (ledger_file w5 = append_line uid (ledger_file w3) ∧ o = Returned None))
  ∧ (forall data, o = Returned (Some data) ->
       ledger_file w5 = ledger_file w3
       ∧ cache w5 !! uid = Some (clock w3, Some data)).
Proof.
  unfold on_reply, on_failure.
  repeat case_match; try done; intros [= <- <-]; cbn;
    (split; [|split]); auto;
    try (intros k Hk; by rewrite lookup_insert_ne);
    try done.
  intros d [= <-]. by rewrite lookup_insert_eq.
Qed.

Lemma _check_cache_shrinks uid w k v :
  cache (_check_cache uid w).2 !! k = Some v -> cache w !! k = Some v.
Proof.
  unfold _check_cache. destruct (cache w !! uid) as [[t r]|] eqn:E.
  - destruct (clock w - t <? cache_ttl); [done|]. cbn.
    case_match; cbn; [by rewrite lookup_empty|].
    intros Hkv. apply lookup_delete_Some in Hkv. tauto.
  - cbn. case_match; cbn; [by rewrite lookup_empty|done].
Qed.

(** A call of [check_user], finished or not, never writes a snapshot
    file, adds at most one line to 404.txt, its own identifier, and none
    when it returns a record, and adds no cache entry for another
    identifier. *)
Theorem lookup_touches_only_its_own_identifier fuel server uid rc w :
  let outcome := check_user fuel server uid rc w in
  snapshot_files (final outcome) = snapshot_files w
  ∧ (ledger_file (final outcome) = ledger_file w
     \/ ledger_file (final outcome) = append_line uid (ledger_file w))
  ∧ (forall data w', outcome = Done (Returned (Some data)) w' ->
       ledger_file w' = ledger_file w)
  ∧ (forall k v, k <> uid -> cache (final outcome) !! k = Some v ->
       cache w !! k = Some v).
Proof.
  cbv zeta. revert rc w. induction fuel as [|fuel IH]; intros rc w.
  { cbn. by repeat split; auto. }
  check_user_cases uid w; cbn [final].
  - pose proof (existing_json_fields _ _ _ _ Hsnap) as (_ & _ & Hc & Hs & _).
    rewrite Hc, Hs. split; [done|]. revert Hsnap. unfold existing_json.
    destruct (snapshot_files w !! uid) as [node|]; [|done].
    destruct (snapshot_exists node); [|done].
    destruct (snapshot_reads node) as [data|]; [|done].
    destruct (is_yoinker data) as [[]|]; try done.
    + intros [= <- <-]. split; [by left|].
      split; [by intros ? ? [= _ <-]|done].
    + intros [= <- <-]. split; [case_decide; cbn; auto|].
      split; [by intros ? ? [=]|]. intros k v _. by case_decide.
  - pose proof (_check_cache_miss_fields _ _ _ _ Hcache) as (_ & _ & Hl & Hs & _).
    rewrite Hl, Hs. split; [done|]. split; [by left|]. split.
    + by intros data w' [= _ <-].
    + intros k v _ H. pose proof (_check_cache_shrinks uid w k v) as Hsub.
      rewrite Hcache in Hsub. by apply Hsub.
  - apply wait_if_needed_done in Hgate as [[j ->] _].
    destruct (gate_fields uid w None w1 j Hcache)
      as (_ & Hc & Hl & Hs & _).
    pose proof (on_reply_finish _ _ _ _ _ _ Hreply) as (_ & _ & Hs5 & _).
    pose proof (on_reply_finish_store _ _ _ _ _ _ Hreply) as (Hc5 & Hl5 & Hf5).
    cbn in Hs5, Hc5, Hl5, Hf5. rewrite Hs5, Hs.
    rewrite Hl in Hl5, Hf5. split; [done|]. split; [tauto|]. split.
    + intros data w' [= -> <-]. by destruct (Hf5 data eq_refl).
    + intros k v Hk H. rewrite (Hc5 k Hk), Hc in H.
      pose proof (_check_cache_shrinks uid w k v) as Hsub.
      rewrite Hcache in Hsub. by apply Hsub.
  - apply wait_if_needed_done in Hgate as [[j ->] _].
    destruct (gate_fields uid w None w1 j Hcache)
      as (_ & Hc & Hl & Hs & _).
    pose proof (on_reply_again _ _ _ _ _ _ Hreply) as (_ & _ & Hs5 & _).
    pose proof (on_reply_again_store _ _ _ _ _ _ Hreply) as (Hc5 & Hl5).
    cbn in Hs5, Hc5, Hl5.
    destruct (IH rc' w5) as (IHs & IHl & IHf & IHc).
    rewrite IHs, Hs5, Hs. rewrite Hl5, Hl in IHl, IHf.
    split; [done|]. split; [done|]. split; [done|].
    intros k v Hk H. apply (IHc k v Hk) in H. rewrite Hc5, Hc in H.
    pose proof (_check_cache_shrinks uid w k v) as Hsub.
    rewrite Hcache in Hsub. by apply Hsub.
  - pose proof (wait_if_needed_final fuel w1) as [j Hj]. rewrite Hgate in Hj.
    cbn in Hj. subst w2.
    destruct (gate_fields uid w None w1 j Hcache)
      as (_ & Hc & Hl & Hs & _).
    rewrite Hs, Hl. split; [done|]. split; [by left|].
    split; [by intros ? ? [=]|].
    intros k v _ H. rewrite Hc in H.
    pose proof (_check_cache_shrinks uid w k v) as Hsub.
    rewrite Hcache in Hsub. by apply Hsub.
Qed.

Lemma known_ids_are_not_requested fuel server c input save_empty w uid :
  uid ∈ _load_404_ids w ->
  count (is_get_for uid)
        (new_events w (final (process_user_ids fuel server c input save_empty w)))
  = O.
Proof.
  intros Hknown.
  destruct (process_user_ids_trace fuel server c input save_empty w)
    as (evs & Htr & Hab).
  rewrite (new_events_app _ _ _ Htr). clear Htr.
  assert (Hout : uid ∉ skip_known (_load_404_ids w)
                                  (default [] (read_user_ids input))).
  { rewrite skip_known_spec. tauto. }
  unfold count. induction Hab as [|e evs He _ IH]; [done|].
  cbn. destruct e as [u r| | |]; cbn; try exact IH.
  destruct (String.eqb_spec u uid) as [->|]; [done|exact IH].
Qed.

(** A 404 reply is remembered.  When 404.txt can be appended to and is
    missing or holds complete lines, and the identifier is one as the run
    reads them, the lookup returns None, the identifier is cached as None
    and is in the set read from 404.txt afterwards, so that a run started
    on that ledger sends no request for it. *)
Theorem not_found_reply_is_remembered server uid rc w content :
  quota_positive w ->
  existing_json uid w = None ->
  (_check_cache uid w).1 = None ->
  server uid (sent w) = Response 404 content ->
  keeps_lines (ledger_file w) = true ->
  is_identifier uid ->
  exists n, forall fuel, (n <= fuel)%nat ->
    exists w',
      check_user fuel server uid rc w = Done (Returned None) w'
      ∧ cache w' !! uid = Some (clock w', None)
      ∧ uid ∈ _load_404_ids w'
      ∧ keeps_lines (ledger_file w') = true
      ∧ forall w2 fuel2 server2 c input save_empty,
          ledger_file w2 = ledger_file w' ->
          count (is_get_for uid)
            (new_events w2 (final (process_user_ids fuel2 server2 c input
                                                    save_empty w2))) = O.
Proof.
  intros Hq Hsnap Hmiss Hrep Hkeeps Hid.
  destruct (reaches_request server uid rc w Hq Hsnap Hmiss)
    as (k & w3 & Hrun & Hl & _).
  exists (S k). intros [|fuel] Hfuel; [lia|].
  rewrite (Hrun fuel) by lia.
  rewrite Hrep. cbn [on_reply Z.eqb Pos.eqb]. eexists. split; [done|].
  split; [cbn; by rewrite lookup_insert_eq|].
  match goal with |- ?u ∈ _load_404_ids (_save_to_404_file _ ?w0) ∧ _ =>
    destruct (saved_identifier_is_loaded u w0) as [Hin Hkept];
      [cbn; by rewrite Hl|done|]
  end.
  split; [exact Hin|]. split; [exact Hkept|].
  intros w2 fuel2 server2 c input save_empty Hsame.
  apply known_ids_are_not_requested.
  unfold _load_404_ids in *. by rewrite Hsame.
Qed.

Lemma not_found_reply_is_remembered_witness :
  let server := fun (_ : string) (_ : nat) => Response 404 Undecodable in
  let w := fresh 0 (Lines ["usr_A"]) ∅ in
  exists n, forall fuel, (n <= fuel)%nat ->
    exists w',
      check_user fuel server "usr_B" 0 w = Done (Returned None) w'
      ∧ cache w' !! "usr_B" = Some (clock w', None)
      ∧ "usr_B" ∈ _load_404_ids w'.
Proof.
  intros server w.
  destruct (not_found_reply_is_remembered server "usr_B" 0 w Undecodable)
    as [n Hn].
  - unfold quota_positive. cbn. lia.
  - reflexivity.
  - reflexivity.
  - reflexivity.
  - reflexivity.
  - split; [reflexivity|]. split; [reflexivity|discriminate].
  - exists n. intros fuel Hfuel.
    destruct (Hn fuel Hfuel) as (w' & Hrun & Hcache & Hin & _).
    exists w'. split; [exact Hrun|]. split; [exact Hcache|exact Hin].
Defined.

(** ** Snapshot files *)




(** A snapshot that says not found puts the identifier on the ledger
    once, when 404.txt can be appended to and is missing or holds
    complete lines and the identifier is one as the run reads them: the
    call after the one that appended it changes nothing. *)
Theorem not_found_snapshot_is_ledgered_once
    fuel fuel' server uid rc rc' w node data :
  snapshot_files w !! uid = Some node ->
  snapshot_reads node = Some data ->
  is_yoinker data = Some false ->
  keeps_lines (ledger_file w) = true ->
  is_identifier uid ->
  let w1 := final (check_user (S fuel) server uid rc w) in
  uid ∈ _load_404_ids w1
  ∧ check_user (S fuel') server uid rc' w1 = Done (Returned None) w1.
Proof.
  intros Hfile Hread Hflag Hkeeps Hid.
  assert (Hexists : snapshot_exists node = true).
  { revert Hread. unfold snapshot_reads, snapshot_exists.
    by repeat case_match. }
  cbn [check_user]. unfold existing_json.
  rewrite Hfile, Hexists, Hread, Hflag. cbn [final].
  destruct (decide (uid ∈ _load_404_ids w)) as [Hin|Hout].
  - split; [done|]. rewrite Hfile, Hexists, Hread, Hflag.
    by rewrite decide_True.
  - destruct (saved_identifier_is_loaded uid w Hkeeps Hid) as [Hin _].
    split; [done|]. cbn [snapshot_files _save_to_404_file set_ledger_file].
    rewrite Hfile, Hexists, Hread, Hflag. by rewrite decide_True.
Qed.

Lemma not_found_snapshot_is_ledgered_once_witness :
  let w := fresh 0 Missing {[ "usr_A" := Stored (not_found_record "usr_A") ]} in
  let w1 := final (check_user 1 (fun _ _ => TimeoutError) "usr_A" 0 w) in
  "usr_A" ∈ _load_404_ids w1
  ∧ check_user 1 (fun _ _ => TimeoutError) "usr_A" 0 w1 = Done (Returned None) w1.
Proof.
  intros w.
  apply (not_found_snapshot_is_ledgered_once 0 0 (fun _ _ => TimeoutError)
           "usr_A" 0 0 w (Stored (not_found_record "usr_A"))
           (not_found_record "usr_A")).
  - reflexivity.
  - reflexivity.
  - reflexivity.
  - reflexivity.
  - split; [reflexivity|]. split; [reflexivity|discriminate].
Defined.

(** ** The report file *)





(** ** The ends of a run *)


